(** * KPR Campus Map: the routing engine of [lib/pathfinding]

    A shallow embedding of the route computation (graph search, grid
    synthesis, waypoint detour, obstruction tests) and the properties of
    its specification.

    Modelling choices.
    - A JavaScript [number] is an IEEE-754 binary64 value: Rocq's primitive
      [float].  [Math.abs], [Math.sqrt], [+], [-], [*], [/] and [<] are the
      primitive operations; [Math.pow(v, 2)] is taken as [v * v].
    - A string is a [string]; the template literals are concatenations.
    - The objects [distances] and [previous], used as dictionaries keyed by
      node id, are finite maps ([gmap string _]); reading an absent key
      gives [undefined].  The key [__proto__], which a JavaScript object
      treats specially, is outside the model.
    - The [Set] [unvisited] iterates in insertion order: a duplicate-free
      list of ids.
    - The two [while] loops of [getShortestPath] take a fuel argument; a
      dereference of [undefined] is the outcome [TypeError].
    - [Math.round] is computed on the exact value of its argument: the
      nearest integer, ties towards positive infinity, the sign of a zero
      result kept.
    - The state of the page is a record; a handler reads the state of the
      render it belongs to and queues updates, which are applied in order
      when it returns.

    The file has four parts: the model of the source, the notions used
    to state and prove its properties, the properties of the route
    computation, and the properties of the rest of the module, of the map
    view and of the page. *)

From Stdlib Require Import Floats ZArith Sorted.
From stdpp Require Import gmap strings list.

Open Scope float_scope.
Open Scope string_scope.

(** * Part I: the model

    The functions of the source under their names.  The two legs of
    [createGridBasedPath] and the loops of [getShortestPath] are
    definitions of their own, named after the comments of the source. *)

(** ** Data model *)

Inductive RoomType : Set := room | waypoint | entrance | stairs.

Record Room : Set := mkRoom {
  id : string;
  name : string;
  x : float;
  y : float;
  connections : list string;
  type : RoomType
}.

Definition isWaypoint (r : Room) : bool :=
  match type r with waypoint => true | _ => false end.

(** Result of a computation that may dereference [undefined] or, in the
    model only, exhaust its fuel. *)
Inductive Outcome (A : Type) : Type :=
| Ok (a : A)
| TypeError
| OutOfFuel.
Arguments Ok {A} a.
Arguments TypeError {A}.
Arguments OutOfFuel {A}.

#[global] Instance Outcome_ret : MRet Outcome := fun A a => Ok a.

#[global] Instance Outcome_bind : MBind Outcome := fun A B k m =>
  match m with
  | Ok a => k a
  | TypeError => TypeError
  | OutOfFuel => OutOfFuel
  end.

(** ** JavaScript arithmetic helpers *)

Definition isNaN (a : float) : bool := negb (a =? a)%float.

Definition isNegZero (a : float) : bool :=
  match classify a with NZero => true | _ => false end.

(** [Math.min] and [Math.max]: NaN if either argument is NaN, and
    [-0] is below [+0]. *)
Definition Math_min (a b : float) : float :=
  if isNaN a || isNaN b then nan
  else if (a <? b)%float then a
  else if (b <? a)%float then b
  else if isNegZero a then a else b.

Definition Math_max (a b : float) : float :=
  if isNaN a || isNaN b then nan
  else if (a <? b)%float then b
  else if (b <? a)%float then a
  else if isNegZero a then b else a.

(** [Math.round]: the integer nearest to [v], the larger one on a tie;
    computed exactly, as floor(v + 1/2) on the mantissa and exponent of
    [v].  Values with a non-negative exponent, zeros, infinities and NaN
    are returned as they are; a result of zero keeps the sign of [v]. *)
Definition Math_round (v : float) : float :=
  match Prim2SF v with
  | S754_finite s m e =>
      if (0 <=? e)%Z then v
      else
        let num := cond_Zopp s (Z.pos m) in
        let n := ((2 * num + 2 ^ (- e)) / 2 ^ (1 - e))%Z in
        if (n =? 0)%Z then (if s then (-0)%float else 0%float)
        else SF2Prim (binary_normalize prec emax n 0 false)
  | _ => v
  end.

(** ** Geometry *)

Definition calculateDistance (room1 room2 : Room) : float :=
  sqrt ((x room1 - x room2) * (x room1 - x room2)
        + (y room1 - y room2) * (y room1 - y room2)).

Definition calculateManhattanDistance (room1 room2 : Room) : float :=
  abs (x room1 - x room2) + abs (y room1 - y room2).

Definition linePassesThroughRoom
  (x1 y1 x2 y2 roomX roomY roomRadius : float) : bool :=
  let A := x1 - x2 in
  let B := y1 - y2 in
  let C := x1 * y2 - y1 * x2 in
  let distance := abs (A * roomX + B * roomY + C) / sqrt (A * A + B * B) in
  (distance <? roomRadius)%float.

(** The default value of [roomRadius]. *)
Definition defaultRadius : float := 20.

(** The [continue] guard shared by the obstruction loops. *)
Definition skipped (start end_ r : Room) : bool :=
  (id r =? id start) || (id r =? id end_) || isWaypoint r.

Definition isPathObstructed (start end_ : Room) (allRooms : list Room) : bool :=
  existsb (fun r =>
    if skipped start end_ r then false
    else linePassesThroughRoom (x start) (y start) (x end_) (y end_)
                               (x r) (y r) defaultRadius) allRooms.

(** ** Waypoint helpers *)

Definition nearestStep (r : Room) (acc : Room * float) (w : Room) : Room * float :=
  let distance := calculateDistance r w in
  if (distance <? snd acc)%float then (w, distance) else acc.

Definition findNearestWaypoint (r : Room) (waypoints : list Room) : option Room :=
  match waypoints with
  | [] => None
  | w0 :: rest =>
      Some (fst (fold_left (nearestStep r) rest (w0, calculateDistance r w0)))
  end.

(** [Array.prototype.sort] with a comparator: a stable insertion sort,
    [a] placed after [b] exactly when the comparator is positive (a NaN
    result counts as zero).  For a consistent comparator this is the order
    every stable sort gives; the properties below use only that sorting
    keeps the elements ([sortBy_In]). *)
Fixpoint insertBy (cmp : Room -> Room -> float) (a : Room) (l : list Room) : list Room :=
  match l with
  | [] => [a]
  | b :: l' => if (0 <? cmp a b)%float then b :: insertBy cmp a l' else a :: b :: l'
  end.

Definition sortBy (cmp : Room -> Room -> float) (l : list Room) : list Room :=
  foldr (insertBy cmp) [] l.

Definition detourLength (start end_ w : Room) : float :=
  calculateManhattanDistance start w + calculateManhattanDistance w end_.

(** The filter of [findRouteThroughWaypoints]. *)
Definition detourBound (start end_ w : Room) : bool :=
  let distanceWithWaypoint := detourLength start end_ w in
  let directDistance := calculateManhattanDistance start end_ in
  (distanceWithWaypoint <? directDistance * 1.5)%float.

Definition bothLegsClear (start end_ : Room) (allRooms : list Room) (w : Room) : bool :=
  negb (isPathObstructed start w allRooms) && negb (isPathObstructed w end_ allRooms).

Definition cornerNode (start end_ : Room) : Room :=
  {| id := "corner-" +:+ id start +:+ "-" +:+ id end_;
     name := "Corner";
     x := x end_;
     y := y start;
     connections := [];
     type := waypoint |}.

Definition findRouteThroughWaypoints
  (start end_ : Room) (waypoints allRooms : list Room) : list Room :=
  let potentialWaypoints := filter (fun w => detourBound start end_ w = true) waypoints in
  let sorted :=
    sortBy (fun a b => detourLength start end_ a - detourLength start end_ b)
           potentialWaypoints in
  match List.find (bothLegsClear start end_ allRooms) sorted with
  | Some w => [start; w; end_]
  | None => [start; cornerNode start end_; end_]
  end.

(** ** Grid synthesis *)

Definition nearTarget (tx ty : float) (w : Room) : bool :=
  (abs (x w - tx) <? 15)%float && (abs (y w - ty) <? 15)%float.

Definition virtualH (start end_ : Room) : Room :=
  {| id := "virtual-h-" +:+ id start +:+ "-" +:+ id end_;
     name := "Corridor";
     x := x end_;
     y := y start;
     connections := [];
     type := waypoint |}.

Definition virtualV (start end_ : Room) (verticalX verticalY : float) : Room :=
  {| id := "virtual-v-" +:+ id start +:+ "-" +:+ id end_;
     name := "Corridor";
     x := verticalX;
     y := verticalY;
     connections := [];
     type := waypoint |}.

Definition horizontalBlocked (start end_ : Room) (allRooms : list Room)
  (horizontalX horizontalY : float) : bool :=
  existsb (fun r =>
    if skipped start end_ r then false
    else
      let minX := Math_min (x start) horizontalX in
      let maxX := Math_max (x start) horizontalX in
      (minX <? x r)%float && (x r <? maxX)%float
      && (abs (y r - horizontalY) <? 20)%float) allRooms.

Definition verticalBlocked (start end_ : Room) (allRooms : list Room)
  (lastY verticalX verticalY : float) : bool :=
  existsb (fun r =>
    if skipped start end_ r then false
    else
      let minY := Math_min lastY verticalY in
      let maxY := Math_max lastY verticalY in
      (minY <? y r)%float && (y r <? maxY)%float
      && (abs (x r - verticalX) <? 20)%float) allRooms.

(** [path[path.length - 1]]: [undefined] on an empty array, and reading a
    field of it raises. *)
Definition lastOf (path : list Room) : Outcome Room :=
  match last path with
  | Some r => Ok r
  | None => TypeError
  end.

(** "First, try to move horizontally". *)
Definition horizontalLeg (start end_ : Room) (allRooms waypoints path : list Room)
  : list Room :=
  if (20 <? abs (x end_ - x start))%float then
    let horizontalX := x end_ in
    let horizontalY := y start in
    match List.find (nearTarget horizontalX horizontalY) waypoints with
    | Some horizontalWaypoint => path ++ [horizontalWaypoint]
    | None =>
        if horizontalBlocked start end_ allRooms horizontalX horizontalY then
          match findNearestWaypoint start waypoints with
          | Some closestWaypoint => path ++ [closestWaypoint]
          | None => path
          end
        else path ++ [virtualH start end_]
    end
  else path.

(** "Then, try to move vertically", from the last point of the path. *)
Definition verticalLegFrom (start end_ : Room) (allRooms waypoints path : list Room)
  (lastPoint : Room) : list Room :=
  if (20 <? abs (y end_ - y lastPoint))%float then
    let verticalX := x lastPoint in
    let verticalY := y end_ in
    match List.find (nearTarget verticalX verticalY) waypoints with
    | Some verticalWaypoint => path ++ [verticalWaypoint]
    | None =>
        if verticalBlocked start end_ allRooms (y lastPoint) verticalX verticalY then
          path ++ tail (findRouteThroughWaypoints lastPoint end_ waypoints allRooms)
        else path ++ [virtualV start end_ verticalX verticalY]
    end
  else path.

Definition verticalLeg (start end_ : Room) (allRooms waypoints path : list Room)
  : Outcome (list Room) :=
  lastPoint ← lastOf path;
  mret (verticalLegFrom start end_ allRooms waypoints path lastPoint).

(** "Add the destination". *)
Definition addDestination (end_ : Room) (path : list Room) : Outcome (list Room) :=
  lastPoint ← lastOf path;
  mret (if negb (id lastPoint =? id end_) then (path ++ [end_])%list else path).

Definition createGridBasedPath (start end_ : Room) (allRooms : list Room)
  : Outcome (list Room) :=
  let waypoints := filter (fun r => isWaypoint r = true) allRooms in
  path ← verticalLeg start end_ allRooms waypoints
           (horizontalLeg start end_ allRooms waypoints [start]);
  addDestination end_ path.

(** ** Graph search *)

(** [rooms.find(r => r.id === i)]. *)
Definition findRoom (i : string) (rooms : list Room) : option Room :=
  List.find (fun r => id r =? i) rooms.

(** [if (!rooms.some(r => r.id === n.id)) rooms.push(n)]. *)
Definition pushIfAbsent (n : Room) (rooms : list Room) : list Room :=
  if existsb (fun r => id r =? id n) rooms then rooms else rooms ++ [n].

(** The [Set] of unvisited ids. *)
Definition setHas (i : string) (s : list string) : bool := existsb (String.eqb i) s.

Definition setAdd (i : string) (s : list string) : list string :=
  if setHas i s then s else s ++ [i].

Definition setDelete (i : string) (s : list string) : list string :=
  List.filter (fun j => negb (j =? i)) s.

Record SearchState : Type := mkState {
  distances : gmap string float;
  previous : gmap string (option string);
  unvisited : list string
}.

(** [distances[i]] read as a number: [undefined] compares as NaN. *)
Definition distanceOf (d : gmap string float) (i : string) : float :=
  default nan (d !! i).

(** [previous[i]]: [undefined] and [null] both end the walk. *)
Definition previousOf (p : gmap string (option string)) (i : string) : option string :=
  default None (p !! i).

Definition initRoom (start : Room) (st : SearchState) (r : Room) : SearchState :=
  {| distances := <[id r := if id r =? id start then 0%float else infinity]> (distances st);
     previous := <[id r := None]> (previous st);
     unvisited := setAdd (id r) (unvisited st) |}.

Definition initState (start : Room) (rooms : list Room) : SearchState :=
  fold_left (initRoom start) rooms
    {| distances := ∅; previous := ∅; unvisited := [] |}.

(** "Find room with minimum distance". *)
Definition selectStep (d : gmap string float) (acc : option string * float) (i : string)
  : option string * float :=
  if (distanceOf d i <? snd acc)%float then (Some i, distanceOf d i) else acc.

Definition selectMin (d : gmap string float) (s : list string) : option string :=
  fst (fold_left (selectStep d) s (None, infinity)).

(** "Process all connections of the current room": one neighbour. *)
Definition relax (rooms : list Room) (unv : list string) (currentId : string)
  (currentRoom : Room)
  (dp : gmap string float * gmap string (option string)) (neighborId : string)
  : gmap string float * gmap string (option string) :=
  if negb (setHas neighborId unv) then dp
  else
    match findRoom neighborId rooms with
    | None => dp
    | Some neighbor =>
        let distance :=
          (distanceOf (fst dp) currentId + calculateDistance currentRoom neighbor)%float in
        if (distance <? distanceOf (fst dp) neighborId)%float
        then (<[neighborId := distance]> (fst dp), <[neighborId := Some currentId]> (snd dp))
        else dp
    end.

(** One turn of the main loop: [None] is [break]. *)
Definition searchStep (endId : string) (rooms : list Room) (st : SearchState)
  : Outcome (option SearchState) :=
  match unvisited st with
  | [] => Ok None
  | _ :: _ =>
      match selectMin (distances st) (unvisited st) with
      | None => Ok None
      | Some currentId =>
          if currentId =? endId then Ok None
          else
            let unv := setDelete currentId (unvisited st) in
            match findRoom currentId rooms with
            | None => TypeError
            | Some currentRoom =>
                let dp := fold_left (relax rooms unv currentId currentRoom)
                            (connections currentRoom) (distances st, previous st) in
                Ok (Some {| distances := fst dp; previous := snd dp; unvisited := unv |})
            end
      end
  end.

Fixpoint searchLoop (fuel : nat) (endId : string) (rooms : list Room) (st : SearchState)
  : Outcome SearchState :=
  match fuel with
  | O => OutOfFuel
  | S fuel' =>
      next ← searchStep endId rooms st;
      match next with
      | None => mret st
      | Some st' => searchLoop fuel' endId rooms st'
      end
  end.

(** "Reconstruct path": [while (currentId)] stops on [null], on
    [undefined] and on the empty string. *)
Fixpoint reconstruct (fuel : nat) (rooms : list Room)
  (prev : gmap string (option string)) (currentId : option string) (path : list Room)
  : Outcome (list Room) :=
  match fuel with
  | O => OutOfFuel
  | S fuel' =>
      match currentId with
      | None => Ok path
      | Some c =>
          if c =? "" then Ok path
          else
            match findRoom c rooms with
            | None => Ok path
            | Some r => reconstruct fuel' rooms prev (previousOf prev c) (r :: path)
            end
      end
  end.

Definition isEmpty {A : Type} (l : list A) : bool :=
  match l with [] => true | _ => false end.

(** The working copy of the node list. *)
Definition workingRooms (start end_ : Room) (allRooms : list Room) : list Room :=
  pushIfAbsent end_ (pushIfAbsent start allRooms).

(** The search and the reconstruction: [Some path] when the walk back
    reaches [start], [None] when the caller has to synthesize a path. *)
Definition graphSearch (fuel : nat) (start end_ : Room) (allRooms : list Room)
  : Outcome (option (list Room)) :=
  let rooms := workingRooms start end_ allRooms in
  st ← searchLoop fuel (id end_) rooms (initState start rooms);
  path ← reconstruct fuel rooms (previous st) (Some (id end_)) [];
  mret (match path with
        | [] => None
        | first :: _ => if negb (id first =? id start) then None else Some path
        end).

Definition getShortestPathFuel (fuel : nat) (start end_ : Room) (allRooms : list Room)
  : Outcome (list Room) :=
  if isEmpty (connections start) || isEmpty (connections end_) then
    createGridBasedPath start end_ allRooms
  else
    found ← graphSearch fuel start end_ allRooms;
    match found with
    | Some path => mret path
    | None => createGridBasedPath start end_ allRooms
    end.

(** Each turn of the main loop deletes one id and each turn of the walk
    back moves to an earlier visited node, so this fuel is enough
    ([getShortestPathFuel_enough]). *)
Definition fuelFor (allRooms : list Room) : nat := length allRooms + 4.

Definition getShortestPath (start end_ : Room) (allRooms : list Room)
  : Outcome (list Room) :=
  getShortestPathFuel (fuelFor allRooms) start end_ allRooms.

(** ** The second search *)

(** [runDijkstra]: the same search and walk back on a copy of the list as
    it is given (the endpoints are not added), and the two-point path
    where [getShortestPath] synthesizes one. *)
Definition runDijkstraFuel (fuel : nat) (start end_ : Room) (allRooms : list Room)
  : Outcome (list Room) :=
  let rooms := allRooms in
  st ← searchLoop fuel (id end_) rooms (initState start rooms);
  path ← reconstruct fuel rooms (previous st) (Some (id end_)) [];
  mret (match path with
        | [] => [start; end_]
        | first :: _ => if negb (id first =? id start) then [start; end_] else path
        end).

Definition runDijkstra (start end_ : Room) (allRooms : list Room) : Outcome (list Room) :=
  runDijkstraFuel (fuelFor allRooms) start end_ allRooms.

(** ** Validation of a path *)

(** The pairs [(path[i], path[i + 1])] for [i < path.length - 1]. *)
Fixpoint segments (path : list Room) : list (Room * Room) :=
  match path with
  | p1 :: (p2 :: _) as rest => (p1, p2) :: segments rest
  | _ => []
  end.

(** [path.some(p => p.id === room.id)]. *)
Definition onPath (path : list Room) (r : Room) : bool :=
  existsb (fun p => id p =? id r) path.

Definition pathCrossesRoom (path rooms : list Room) : bool :=
  existsb (fun '(p1, p2) =>
    existsb (fun r =>
      if isWaypoint r || onPath path r then false
      else linePassesThroughRoom (x p1) (y p1) (x p2) (y p2) (x r) (y r) defaultRadius)
      rooms)
    (segments path).

Definition findPathAStar (start end_ : Room) (allRooms : list Room) : Outcome (list Room) :=
  getShortestPath start end_ allRooms.

(** ** The map view ([components/CollegeMap]) *)

Module CollegeMap.


(** The new scale set by [handleWheel], [zoomIn] and [zoomOut].  The
    literals [0.001] and [0.1] denote the nearest binary64 values, as they
    do in the source. *)
Definition handleWheel (scale deltaY : float) : float :=
  let newScale := scale - deltaY * 0.001 in
  Math_min (Math_max 0.5 newScale) 3.

Definition zoomIn (scale : float) : float := Math_min (scale + 0.1) 3.

Definition zoomOut (scale : float) : float := Math_max (scale - 0.1) 0.5.

End CollegeMap.

(** ** The page ([pages/Index])

    The component state is a record.  A handler reads the state of the
    render it was created in and queues updates with the setters; the
    updates are applied in order when the handler returns.  The node list
    [allRooms] is imported from the building data and is a parameter. *)

Module Index.

Record State : Type := mkState {
  selectedStart : option Room;
  selectedDestination : option Room;
  path : list Room
}.

Inductive Update : Type :=
| setSelectedStart (o : option Room)
| setSelectedDestination (o : option Room)
| setPath (p : list Room).

Definition applyUpdate (st : State) (u : Update) : State :=
  match u with
  | setSelectedStart o =>
      {| selectedStart := o; selectedDestination := selectedDestination st; path := path st |}
  | setSelectedDestination o =>
      {| selectedStart := selectedStart st; selectedDestination := o; path := path st |}
  | setPath p =>
      {| selectedStart := selectedStart st; selectedDestination := selectedDestination st;
         path := p |}
  end.

Definition initialState : State :=
  {| selectedStart := None; selectedDestination := None; path := [] |}.

(** The updates a handler queues, from the state [rendered] it reads. *)
Definition startSelectUpdates (allRooms : list Room) (rendered : State) (r : Room)
  : Outcome (list Update) :=
  match selectedDestination rendered with
  | Some destination =>
      newPath ← getShortestPath r destination allRooms;
      mret [setSelectedStart (Some r); setPath newPath]
  | None => mret [setSelectedStart (Some r)]
  end.

Definition destinationSelectUpdates (allRooms : list Room) (rendered : State) (r : Room)
  : Outcome (list Update) :=
  match selectedStart rendered with
  | Some start =>
      newPath ← getShortestPath start r allRooms;
      mret [setSelectedDestination (Some r); setPath newPath]
  | None => mret [setSelectedDestination (Some r)]
  end.

Definition roomClickUpdates (allRooms : list Room) (rendered : State) (r : Room)
  : Outcome (list Update) :=
  match selectedStart rendered, selectedDestination rendered with
  | None, _ => startSelectUpdates allRooms rendered r
  | Some _, None => destinationSelectUpdates allRooms rendered r
  | Some _, Some _ =>
      us ← startSelectUpdates allRooms rendered r;
      mret ([setSelectedDestination None; setPath []] ++ us)%list
  end.

Definition run (st : State) (updates : Outcome (list Update)) : Outcome State :=
  us ← updates; mret (fold_left applyUpdate us st).

Definition handleStartSelect (allRooms : list Room) (st : State) (r : Room) : Outcome State :=
  run st (startSelectUpdates allRooms st r).

Definition handleDestinationSelect (allRooms : list Room) (st : State) (r : Room)
  : Outcome State :=
  run st (destinationSelectUpdates allRooms st r).

Definition handleRoomClick (allRooms : list Room) (st : State) (r : Room) : Outcome State :=
  run st (roomClickUpdates allRooms st r).

Definition clearNavigation (st : State) : State :=
  fold_left applyUpdate [setSelectedStart None; setSelectedDestination None; setPath []] st.

(** "Calculate total path distance", shown under the map. *)
Definition calculateTotalDistance (route : list Room) : float :=
  if (length route <? 2)%nat then 0
  else
    Math_round
      (fold_left (fun totalDistance '(previousNode, node) =>
                    let dx := x node - x previousNode in
                    let dy := y node - y previousNode in
                    totalDistance + sqrt (dx * dx + dy * dy))
                 (segments route) 0).

End Index.

(** * Part II: notions used by the properties *)

Close Scope float_scope.
Close Scope string_scope.

(** ** Paths *)

(** Total Euclidean length of a path. *)
Fixpoint pathLength (path : list Room) : float :=
  match path with
  | a :: (b :: _) as rest => (calculateDistance a b + pathLength rest)%float
  | _ => 0%float
  end.

(** Consecutive nodes are joined by a listed connection, in the direction
    of travel. *)
Fixpoint directedChain (path : list Room) : Prop :=
  match path with
  | a :: (b :: _) as rest => In (id b) (connections a) /\ directedChain rest
  | _ => True
  end.

(** ** The obstruction test of the specification *)

(** The perpendicular distance from (px, py) to the line through
    (x1, y1) and (x2, y2), by the usual formula with the line's normal
    (y2 - y1, -(x2 - x1)). *)
Definition perpendicularDistance (x1 y1 x2 y2 px py : float) : float :=
  (abs ((y2 - y1) * px - (x2 - x1) * py + x2 * y1 - y2 * x1)
   / sqrt ((y2 - y1) * (y2 - y1) + (x2 - x1) * (x2 - x1)))%float.

(** The obstruction test as the specification words it: some node other
    than [a] and [b], of a kind other than waypoint, lies at a
    perpendicular distance of less than 20 from the line through [a] and
    [b]. *)
Definition isObstructedSpec (a b : Room) (allNodes : list Room) : bool :=
  existsb (fun node =>
    if skipped a b node then false
    else (perpendicularDistance (x a) (y a) (x b) (y b) (x node) (y node)
          <? defaultRadius)%float) allNodes.

(** ** The symmetrized graph of the specification *)

Definition listsId (i : string) (r : Room) : bool :=
  existsb (String.eqb i) (connections r).

Definition withConnections (r : Room) (cs : list string) : Room :=
  {| id := id r; name := name r; x := x r; y := y r; connections := cs; type := type r |}.

(** Each node [b] also lists every node that lists [b]. *)
Definition symmetrize (nodes : list Room) : list Room :=
  map (fun b =>
         withConnections b
           (connections b
            ++ map id (List.filter (fun a => listsId (id b) a && negb (listsId (id a) b))
                         nodes))%list)
      nodes.

(** ** Synthesized nodes *)

(** [startsWith p s]: the string [s] begins with [p]. *)
Fixpoint startsWith (p s : string) : bool :=
  match p, s with
  | EmptyString, _ => true
  | String a p', String b s' => Ascii.eqb a b && startsWith p' s'
  | String _ _, EmptyString => false
  end.

(** The three prefixes of the ids the engine synthesizes. *)
Definition reservedPrefix (i : string) : bool :=
  startsWith "virtual-h-"%string i
  || startsWith "virtual-v-"%string i
  || startsWith "corner-"%string i.

Definition synthesized (v : Room) : Prop :=
  connections v = [] /\ reservedPrefix (id v) = true.

(** A node of a returned path is either given or synthesized. *)
Definition givenOrSynthesized (start end_ : Room) (allRooms : list Room) (v : Room) : Prop :=
  (v = start \/ v = end_ \/ In v allRooms) \/ synthesized v.

(** ** The nearest waypoint *)

(** No waypoint of [l] is strictly closer to [r] than [w]. *)
Definition noneCloser (r w : Room) (l : list Room) : Prop :=
  Forall (fun w' => (calculateDistance r w' <? calculateDistance r w)%float = false) l.

(** ** The main loop: visiting order and invariant *)

(** [rank V i] is the position of [i] in the list [V] of visited ids,
    newest first, counted from the oldest; [0] when [i] was not visited. *)
Fixpoint rank (V : list string) (i : string) : nat :=
  match V with
  | [] => 0
  | c :: V' => if (c =? i)%string then S (length V') else rank V' i
  end.

Record SearchInv (rooms : list Room) (V : list string) (st : SearchState) : Prop :=
  mkSearchInv {
    inv_resolves : forall i, In i (unvisited st) -> is_Some (findRoom i rooms);
    inv_fresh : forall i, In i (unvisited st) -> rank V i = 0;
    inv_prev_rank : forall n u, previous st !! n = Some (Some u) ->
      0 < rank V u /\ (rank V n = 0 \/ rank V u < rank V n);
    inv_prev_edge : forall n u, previous st !! n = Some (Some u) ->
      exists ru, findRoom u rooms = Some ru /\ In n (connections ru);
    inv_size : length V + length (unvisited st) <= length rooms
  }.

(** Steps left before the walk back reaches the oldest visited node. *)
Definition stepsLeft (V : list string) (c : string) : nat :=
  match rank V c with 0 => S (length V) | S k => S k end.

(** The node about to be prepended lists the head of the path. *)
Definition linked (rooms : list Room) (cur : option string) (path : list Room) : Prop :=
  match cur, path with
  | Some c, r :: _ => forall rc, findRoom c rooms = Some rc -> In (id r) (connections rc)
  | _, _ => True
  end.

(** The distance the initialisation gives to an id. *)
Definition initialDistance (start : Room) (i : string) : float :=
  if (i =? id start)%string then 0%float else infinity.

(** ** Classes of binary64 values *)

(** A zero of either sign, or NaN. *)
Definition zeroOrNaN (f : spec_float) : bool :=
  match f with
  | S754_zero _ | S754_nan => true
  | _ => false
  end.

(** Not below zero: NaN, a zero of either sign, or a positive value. *)
Definition notNegative (f : spec_float) : bool :=
  match f with
  | S754_zero _ | S754_nan => true
  | S754_infinity s | S754_finite s _ _ => negb s
  end.

(** [t] is [s] with the opposite sign; zeros of any sign stand for each
    other. *)
Definition negated (s t : spec_float) : Prop :=
  match s, t with
  | S754_zero _, S754_zero _ => True
  | S754_nan, S754_nan => True
  | S754_infinity a, S754_infinity b => b = negb a
  | S754_finite a m e, S754_finite b m' e' => b = negb a /\ m' = m /\ e' = e
  | _, _ => False
  end.


(** ** The state of the page *)

(** When both ends are selected, the path shown is the route between
    them. *)
Definition consistent (allRooms : list Room) (st : Index.State) : Prop :=
  forall s d,
    Index.selectedStart st = Some s ->
    Index.selectedDestination st = Some d ->
    getShortestPath s d allRooms = Ok (Index.path st).

(** ** Sample graphs *)

Module Examples.
Definition nodeA : Room := mkRoom "a" "A" 0 0 ["b"%string] room.
Definition nodeB : Room := mkRoom "b" "B" 100 0 ["a"%string] room.
End Examples.

Module Corridor.
Definition west : Room := mkRoom "a" "West door" 0 0 [] room.
Definition east : Room := mkRoom "b" "East door" 100 0 [] room.
Definition middle : Room := mkRoom "m" "Office" 50 0 [] room.
Definition far : Room := mkRoom "f" "Annex" 0 500 [] room.
End Corridor.

Module EmptyId.
Definition origin : Room := mkRoom "" "Gate" 0 0 ["b"%string] entrance.
Definition target : Room := mkRoom "b" "Library" 30 40 [""%string] room.
Definition graph : list Room := [origin; target].
(** The same graph with the id [a] in place of the empty id. *)
Definition origin' : Room := mkRoom "a" "Gate" 0 0 ["b"%string] entrance.
Definition target' : Room := mkRoom "b" "Library" 30 40 ["a"%string] room.
Definition graph' : list Room := [origin'; target'].
End EmptyId.

Module Diagonal.
Definition A : Room := mkRoom "a" "A" 0 0 [] room.
Definition B : Room := mkRoom "b" "B" 200 150 [] room.
End Diagonal.

Module OneWay.
Definition a : Room := mkRoom "a" "Atrium" 0 0 ["b"%string] room.
Definition b : Room := mkRoom "b" "Bookshop" 30 40 ["c"%string] room.
Definition c : Room := mkRoom "c" "Canteen" 200 40 [] room.
Definition graph : list Room := [a; b; c].
End OneWay.

Module Clash.
Definition lab : Room := mkRoom "virtual-h-a-b" "Lab" 1000 1000 [] room.
Definition graph : list Room := [Diagonal.A; Diagonal.B; lab].
End Clash.

Module Alias.
Definition s : Room := mkRoom "a" "Atrium" 0 0 ["b"%string] room.
Definition other : Room := mkRoom "a" "Archive" 5 5 [] room.
End Alias.

Module Nearby.
Definition desk : Room := mkRoom "d" "Desk" 10 10 [] room.
Definition shelf : Room := mkRoom "s" "Shelf" 15 15 [] room.
Definition door : Room := mkRoom "o" "Door" 20 25 [] entrance.
End Nearby.

Module Detour.
Definition origin : Room := mkRoom "f" "Foyer" 0 0 [] room.
Definition target : Room := mkRoom "t" "Theatre" 100 100 [] room.
Definition turn : Room := mkRoom "w" "" 100 0 [] waypoint.
Definition onLeg : Room := mkRoom "m" "Mail room" 50 0 [] room.
Definition away : Room := mkRoom "z" "Annex" 0 500 [] room.
Definition onRise : Room := mkRoom "b" "Booth" 100 50 [] room.
End Detour.

Module Blocked.
Definition a : Room := mkRoom "a" "Atrium" 0 0 [] room.
Definition b : Room := mkRoom "b" "Bursary" 100 100 [] room.
Definition desk : Room := mkRoom "m" "Desk" 50 0 [] room.
Definition kiosk : Room := mkRoom "k" "Kiosk" 0 70 [] room.
Definition far : Room := mkRoom "w1" "" 0 200 [] waypoint.
Definition near : Room := mkRoom "w2" "" 0 40 [] waypoint.
Definition graph : list Room := [a; desk; kiosk; far; near; b].
End Blocked.

(** * Part III: properties *)

(** ** Lists, strings and numbers *)

Lemma bind_Ok_inv {A B : Type} (m : Outcome A) (k : A -> Outcome B) (b : B) :
  m ≫= k = Ok b -> exists a, m = Ok a /\ k a = Ok b.
Proof. destruct m as [a | |]; simpl; [eauto | discriminate | discriminate]. Qed.

Lemma findRoom_Some (i : string) (rooms : list Room) (r : Room) :
  findRoom i rooms = Some r -> In r rooms /\ id r = i.
Proof.
  unfold findRoom. intros H. apply find_some in H as [Hin Heq].
  split; [exact Hin | now apply String.eqb_eq].
Qed.

Lemma findRoom_In (r : Room) (rooms : list Room) :
  In r rooms -> is_Some (findRoom (id r) rooms).
Proof.
  unfold findRoom. intros Hin.
  destruct (List.find (fun r0 => id r0 =? id r)%string rooms) eqn:E; [eauto |].
  apply (find_none _ _ E) in Hin. rewrite String.eqb_refl in Hin. discriminate.
Qed.

Lemma lastOf_snoc (path : list Room) (r : Room) : lastOf (path ++ [r]) = Ok r.
Proof. unfold lastOf. now rewrite last_snoc. Qed.

(** Reading the last element of a non-empty path does not raise. *)
Lemma lastOf_nonempty (path : list Room) :
  path <> [] -> exists r, lastOf path = Ok r /\ last path = Some r.
Proof.
  intros Hne. destruct (exists_last Hne) as [l [a ->]].
  exists a. now rewrite lastOf_snoc, last_snoc.
Qed.

Lemma string_length_append (s1 s2 : string) :
  String.length (s1 +:+ s2) = String.length s1 + String.length s2.
Proof. induction s1 as [| c s1 IH]; simpl; [reflexivity | now rewrite IH]. Qed.

(** A synthesized id is longer than the destination's id. *)
Lemma synthesized_id_neq (p s e : string) :
  0 < String.length p -> (p +:+ s +:+ "-" +:+ e)%string <> e.
Proof.
  intros Hp Heq. apply (f_equal String.length) in Heq.
  rewrite !string_length_append in Heq. simpl in Heq. lia.
Qed.

(** [v - v] is a zero or NaN, never above the leg threshold. *)
Lemma sub_self_below_threshold (v : float) : (20 <? abs (v - v))%float = false.
Proof.
  rewrite ltb_spec, abs_spec, sub_spec.
  destruct (Prim2SF v) as [s | s | | s m e] eqn:E.
  - now destruct s.
  - now destruct s.
  - reflexivity.
  - unfold SF64sub, SFsub.
    replace (cond_Zopp s (Z.pos (fst (shl_align m e (Z.min e e))))
             - cond_Zopp s (Z.pos (fst (shl_align m e (Z.min e e)))))%Z with 0%Z by lia.
    reflexivity.
Qed.

(** ** Grid synthesis: shape of the result *)

Section GridShape.
Variables start end_ : Room.
Variable allRooms : list Room.

Lemma horizontalLeg_extends (waypoints path : list Room) :
  exists l, horizontalLeg start end_ allRooms waypoints path = path ++ l.
Proof.
  unfold horizontalLeg.
  destruct (20 <? abs (x end_ - x start))%float; [| exists []; now rewrite app_nil_r].
  destruct (List.find _ waypoints); [eauto |].
  destruct (horizontalBlocked _ _ _ _ _); [| eauto].
  destruct (findNearestWaypoint _ _); [eauto | exists []; now rewrite app_nil_r].
Qed.

Lemma verticalLegFrom_extends (waypoints path : list Room) (lastPoint : Room) :
  exists l, verticalLegFrom start end_ allRooms waypoints path lastPoint = path ++ l.
Proof.
  unfold verticalLegFrom.
  destruct (20 <? abs (y end_ - y lastPoint))%float;
    [| exists []; now rewrite app_nil_r].
  destruct (List.find _ waypoints); [eauto |].
  destruct (verticalBlocked _ _ _ _ _ _); eauto.
Qed.

Lemma verticalLeg_extends (waypoints path : list Room) :
  path <> [] ->
  exists l, verticalLeg start end_ allRooms waypoints path = Ok (path ++ l).
Proof.
  intros Hne. unfold verticalLeg.
  destruct (lastOf_nonempty path Hne) as (r & -> & _). simpl.
  destruct (verticalLegFrom_extends waypoints path r) as [l ->]. eauto.
Qed.

Lemma addDestination_last (path : list Room) :
  path <> [] ->
  exists l final,
    addDestination end_ path = Ok (path ++ l)
    /\ last (path ++ l) = Some final /\ id final = id end_.
Proof.
  intros Hne. unfold addDestination.
  destruct (lastOf_nonempty path Hne) as (r & -> & Hlast). simpl.
  destruct (id r =? id end_)%string eqn:E; simpl.
  - exists [], r. rewrite app_nil_r. repeat split; [exact Hlast | now apply String.eqb_eq].
  - exists [end_], end_. repeat split. apply last_snoc.
Qed.

(** Grid synthesis never reads the last element of an empty path: it
    returns a path that begins with [start] and ends on the id of
    [end_]. *)
Lemma createGridBasedPath_total :
  exists l final,
    createGridBasedPath start end_ allRooms = Ok (start :: l)
    /\ last (start :: l) = Some final /\ id final = id end_.
Proof.
  unfold createGridBasedPath.
  set (wps := filter _ allRooms).
  destruct (horizontalLeg_extends wps [start]) as [l1 ->].
  destruct (verticalLeg_extends wps ([start] ++ l1)) as [l2 ->]; [discriminate |].
  simpl.
  destruct (addDestination_last (start :: l1 ++ l2)) as (l3 & final & -> & Hlast & Hid);
    [discriminate |].
  exists ((l1 ++ l2) ++ l3), final. auto.
Qed.
End GridShape.

(** ** The unvisited set *)

Lemma setHas_In (i : string) (s : list string) : setHas i s = true <-> In i s.
Proof.
  unfold setHas. rewrite existsb_exists. split.
  - intros [j [Hin Heq]]. apply String.eqb_eq in Heq. now subst.
  - intros Hin. exists i. split; [exact Hin | apply String.eqb_refl].
Qed.

Lemma setAdd_In (i j : string) (s : list string) :
  In j (setAdd i s) <-> j = i \/ In j s.
Proof.
  unfold setAdd. destruct (setHas i s) eqn:E.
  - apply setHas_In in E. split; [tauto | intros [-> | H]; assumption].
  - rewrite in_app_iff. simpl. split; intros H; intuition congruence.
Qed.

Lemma setAdd_length (i : string) (s : list string) :
  length (setAdd i s) <= S (length s).
Proof.
  unfold setAdd. destruct (setHas i s); [lia |].
  rewrite length_app. simpl. lia.
Qed.

Lemma setDelete_In (i j : string) (s : list string) :
  In j (setDelete i s) <-> In j s /\ j <> i.
Proof.
  unfold setDelete. rewrite filter_In, negb_true_iff, String.eqb_neq. tauto.
Qed.

Lemma setDelete_length (i : string) (s : list string) :
  In i s -> length (setDelete i s) < length s.
Proof.
  unfold setDelete. induction s as [| j s IH]; simpl; [tauto |].
  intros [-> | Hin].
  - rewrite String.eqb_refl. simpl.
    pose proof (List.filter_length_le (fun j => negb (j =? i)%string) s). lia.
  - destruct (negb (j =? i)%string); simpl; [apply IH in Hin; lia |].
    pose proof (List.filter_length_le (fun j => negb (j =? i)%string) s). lia.
Qed.

(** ** Selection of the next node *)

Lemma selectMin_fold_In (d : gmap string float) (s : list string)
  (acc : option string * float) (c : string) :
  fst (fold_left (selectStep d) s acc) = Some c -> fst acc = Some c \/ In c s.
Proof.
  revert acc. induction s as [| i s IH]; simpl; intros acc H; [now left |].
  apply IH in H as [H | H]; [| now right; right].
  unfold selectStep in H. destruct (_ <? _)%float; simpl in H.
  - right; left. congruence.
  - now left.
Qed.

Lemma selectMin_In (d : gmap string float) (s : list string) (c : string) :
  selectMin d s = Some c -> In c s.
Proof.
  intros H. apply selectMin_fold_In in H as [H | H]; [discriminate | exact H].
Qed.

(** ** Invariant of the main loop *)

Lemma rank_le (V : list string) (i : string) : rank V i <= length V.
Proof.
  induction V as [| c V IH]; simpl; [lia |].
  destruct (c =? i)%string; lia.
Qed.

Section Initialisation.
Variable start : Room.

Lemma initState_fold (l : list Room) (st : SearchState) :
  let st' := fold_left (initRoom start) l st in
  (forall i, In i (unvisited st') -> In i (unvisited st) \/ In i (map id l))
  /\ (forall n u, previous st' !! n = Some (Some u) -> previous st !! n = Some (Some u))
  /\ length (unvisited st') <= length (unvisited st) + length l.
Proof.
  revert st. induction l as [| r l IH]; intros st; simpl.
  - repeat split; [tauto | tauto | lia].
  - destruct (IH (initRoom start st r)) as (Hu & Hp & Hl).
    repeat split.
    + intros i Hi. apply Hu in Hi as [Hi | Hi]; [| tauto].
      simpl in Hi. apply setAdd_In in Hi as [-> | Hi]; [right; now left | now left].
    + intros n u Hn. apply Hp in Hn. simpl in Hn.
      destruct (decide (id r = n)) as [Heq | Hne].
      * rewrite Heq, lookup_insert_eq in Hn. discriminate.
      * now rewrite lookup_insert_ne in Hn.
    + etransitivity; [exact Hl |]. simpl.
      pose proof (setAdd_length (id r) (unvisited st)). lia.
Qed.

Lemma initState_inv (rooms : list Room) : SearchInv rooms [] (initState start rooms).
Proof.
  unfold initState.
  destruct (initState_fold rooms {| distances := ∅; previous := ∅; unvisited := [] |})
    as (Hu & Hp & Hl).
  split.
  - intros i Hi. apply Hu in Hi as [[] | Hi].
    apply in_map_iff in Hi as [r [<- Hr]]. now apply findRoom_In.
  - reflexivity.
  - intros n u Hn. apply Hp in Hn. simpl in Hn. now rewrite lookup_empty in Hn.
  - intros n u Hn. apply Hp in Hn. simpl in Hn. now rewrite lookup_empty in Hn.
  - simpl in *. lia.
Qed.
End Initialisation.

(** ** Relaxation and one turn of the main loop *)

Section Relaxation.
Variable rooms : list Room.
Variable unv : list string.
Variable currentId : string.
Variable currentRoom : Room.

Lemma relax_prev (dp : gmap string float * gmap string (option string))
  (neighborId n u : string) :
  snd (relax rooms unv currentId currentRoom dp neighborId) !! n = Some (Some u) ->
  snd dp !! n = Some (Some u) \/ (u = currentId /\ In n unv /\ n = neighborId).
Proof.
  unfold relax. destruct (setHas neighborId unv) eqn:Has; simpl; [| now left].
  apply setHas_In in Has.
  destruct (findRoom neighborId rooms); [| now left].
  destruct (_ <? _)%float; [| now left].
  simpl. destruct (decide (neighborId = n)) as [Heq | Hne].
  - subst n. rewrite lookup_insert_eq. intros [= <-]. now right.
  - rewrite lookup_insert_ne by exact Hne. now left.
Qed.

Lemma relax_fold_prev (l : list string)
  (dp : gmap string float * gmap string (option string)) (n u : string) :
  snd (fold_left (relax rooms unv currentId currentRoom) l dp) !! n = Some (Some u) ->
  snd dp !! n = Some (Some u) \/ (u = currentId /\ In n unv /\ In n l).
Proof.
  revert dp. induction l as [| j l IH]; simpl; intros dp H; [now left |].
  apply IH in H as [H | (-> & Hn & Hl)].
  - apply relax_prev in H as [H | (-> & Hn & ->)]; [now left | right; auto].
  - right; auto.
Qed.
End Relaxation.

Section MainLoop.
Variable endId : string.
Variable rooms : list Room.

(** A turn of the loop never dereferences [undefined]; when it goes on,
    it has visited one more node and the invariant holds again. *)
Lemma searchStep_inv (V : list string) (st : SearchState) :
  SearchInv rooms V st ->
  searchStep endId rooms st = Ok None
  \/ exists c st', searchStep endId rooms st = Ok (Some st')
       /\ SearchInv rooms (c :: V) st'
       /\ length (unvisited st') < length (unvisited st).
Proof.
  intros Inv. unfold searchStep.
  destruct (unvisited st) as [| i0 rest] eqn:Hunv; [now left |].
  rewrite <- Hunv.
  destruct (selectMin (distances st) (unvisited st)) as [c |] eqn:Hsel; [| now left].
  apply selectMin_In in Hsel.
  destruct (c =? endId)%string; [now left |].
  destruct (inv_resolves _ _ _ Inv c Hsel) as [cur Hcur].
  rewrite Hcur. right. eexists c, _. split; [reflexivity |].
  pose proof (inv_fresh _ _ _ Inv c Hsel) as Hc0.
  split; [split; simpl |].
  - intros i Hi. apply setDelete_In in Hi as [Hi _]. now apply (inv_resolves _ _ _ Inv).
  - intros i Hi. apply setDelete_In in Hi as [Hi Hne].
    destruct (String.eqb_spec c i) as [-> | _]; [congruence |].
    now apply (inv_fresh _ _ _ Inv).
  - intros n u Hn. apply relax_fold_prev in Hn as [Hn | (-> & Hn & _)]; simpl in Hn.
    + destruct (inv_prev_rank _ _ _ Inv n u Hn) as [Hu Hnu].
      destruct (String.eqb_spec c u) as [-> | _]; [lia |].
      split; [exact Hu |].
      destruct (String.eqb_spec c n) as [-> | _]; [| exact Hnu].
      right. pose proof (rank_le V u). lia.
    + rewrite String.eqb_refl. split; [lia |]. left.
      apply setDelete_In in Hn as [Hn Hne].
      destruct (String.eqb_spec c n) as [-> | _]; [congruence |].
      now apply (inv_fresh _ _ _ Inv).
  - intros n u Hn. apply relax_fold_prev in Hn as [Hn | (-> & _ & Hn)]; simpl in Hn.
    + now apply (inv_prev_edge _ _ _ Inv).
    + eauto.
  - pose proof (setDelete_length c (unvisited st) Hsel).
    pose proof (inv_size _ _ _ Inv). lia.
  - simpl. now apply setDelete_length.
Qed.

(** The main loop ends within [length unvisited + 1] turns. *)
Lemma searchLoop_total (fuel : nat) (V : list string) (st : SearchState) :
  SearchInv rooms V st ->
  length (unvisited st) < fuel ->
  exists V' st', searchLoop fuel endId rooms st = Ok st' /\ SearchInv rooms V' st'.
Proof.
  revert V st. induction fuel as [| fuel IH]; intros V st Inv Hlen; [lia |].
  simpl. destruct (searchStep_inv V st Inv) as [-> | (c & st' & -> & Inv' & Hlt)].
  - eauto.
  - apply (IH (c :: V)); [exact Inv' | lia].
Qed.

Lemma searchLoop_more_fuel (fuel fuel' : nat) (st st' : SearchState) :
  searchLoop fuel endId rooms st = Ok st' ->
  fuel <= fuel' ->
  searchLoop fuel' endId rooms st = Ok st'.
Proof.
  revert fuel' st. induction fuel as [| fuel IH]; intros fuel' st H Hle;
    [discriminate |].
  destruct fuel' as [| fuel']; [lia |]. simpl in *.
  destruct (searchStep endId rooms st) as [[st1 |] | |]; try discriminate;
    [| exact H].
  apply IH; [exact H | lia].
Qed.
End MainLoop.

(** ** The walk back along [previous] *)

Lemma previousOf_Some (p : gmap string (option string)) (c u : string) :
  previousOf p c = Some u -> p !! c = Some (Some u).
Proof. unfold previousOf. destruct (p !! c) as [[v |] |]; simpl; congruence. Qed.

Section Reconstruction.
Variable rooms : list Room.
Variable prev : gmap string (option string).

Lemma reconstruct_prepends (fuel : nat) (cur : option string) (path p : list Room) :
  reconstruct fuel rooms prev cur path = Ok p ->
  exists q, p = q ++ path /\ Forall (fun r => In r rooms) q.
Proof.
  revert cur path. induction fuel as [| fuel IH]; intros cur path H; [discriminate |].
  simpl in H. destruct cur as [c |]; [| injection H as <-; now exists []].
  destruct (c =? "")%string; [injection H as <-; now exists [] |].
  destruct (findRoom c rooms) as [r |] eqn:Hr; [| injection H as <-; now exists []].
  apply IH in H as (q & -> & Hq). exists (q ++ [r]). split.
  - now rewrite <- app_assoc.
  - apply Forall_app. split; [exact Hq |].
    apply Forall_cons. split; [now apply findRoom_Some in Hr | constructor].
Qed.

(** The walk starts by resolving the id it is given: that node ends the
    path. *)
Lemma reconstruct_last (fuel : nat) (c : string) (p : list Room) :
  reconstruct fuel rooms prev (Some c) [] = Ok p ->
  p = [] \/ exists r, last p = Some r /\ id r = c.
Proof.
  destruct fuel as [| fuel]; [discriminate |]. simpl.
  destruct (c =? "")%string; [intros [= <-]; now left |].
  destruct (findRoom c rooms) as [r |] eqn:Hr; [| intros [= <-]; now left].
  intros H. apply reconstruct_prepends in H as (q & -> & _).
  right. exists r. split; [apply last_snoc | now apply findRoom_Some in Hr].
Qed.

Lemma reconstruct_more_fuel (fuel fuel' : nat) (cur : option string)
  (path p : list Room) :
  reconstruct fuel rooms prev cur path = Ok p ->
  fuel <= fuel' ->
  reconstruct fuel' rooms prev cur path = Ok p.
Proof.
  revert fuel' cur path. induction fuel as [| fuel IH]; intros fuel' cur path H Hle;
    [discriminate |].
  destruct fuel' as [| fuel']; [lia |]. simpl in *.
  destruct cur as [c |]; [| exact H].
  destruct (c =? "")%string; [exact H |].
  destruct (findRoom c rooms); [| exact H].
  apply IH; [exact H | lia].
Qed.

Hypothesis prev_edge : forall n u, prev !! n = Some (Some u) ->
  exists ru, findRoom u rooms = Some ru /\ In n (connections ru).

Lemma reconstruct_chain (fuel : nat) (cur : option string) (path p : list Room) :
  directedChain path ->
  linked rooms cur path ->
  reconstruct fuel rooms prev cur path = Ok p ->
  directedChain p.
Proof.
  revert cur path. induction fuel as [| fuel IH]; intros cur path Hch Hl H;
    [discriminate |].
  simpl in H. destruct cur as [c |]; [| now injection H as <-].
  destruct (c =? "")%string; [now injection H as <- |].
  destruct (findRoom c rooms) as [r |] eqn:Hr; [| now injection H as <-].
  apply IH in H; [exact H | |].
  - destruct path as [| r0 path]; [exact I |]. split; [| exact Hch].
    now apply Hl.
  - unfold linked. destruct (previousOf prev c) as [u |] eqn:Hu; [| exact I].
    intros ru Hru. apply previousOf_Some, prev_edge in Hu as (ru' & Hru' & Hin).
    apply findRoom_Some in Hr as [_ ->]. congruence.
Qed.

Variable V : list string.

Hypothesis prev_rank : forall n u, prev !! n = Some (Some u) ->
  0 < rank V u /\ (rank V n = 0 \/ rank V u < rank V n).

Lemma stepsLeft_decreases (c u : string) :
  prev !! c = Some (Some u) -> stepsLeft V u < stepsLeft V c.
Proof.
  intros H. apply prev_rank in H as [Hu Hc]. unfold stepsLeft.
  pose proof (rank_le V u).
  destruct (rank V u); [lia |]. destruct (rank V c); lia.
Qed.

(** The walk back ends: each turn moves to a node visited earlier. *)
Lemma reconstruct_total (fuel : nat) (cur : option string) (path : list Room) :
  0 < fuel ->
  (forall c, cur = Some c -> stepsLeft V c < fuel) ->
  exists p, reconstruct fuel rooms prev cur path = Ok p.
Proof.
  revert cur path. induction fuel as [| fuel IH]; intros cur path Hpos Hm; [lia |].
  simpl. destruct cur as [c |]; [| eauto].
  destruct (c =? "")%string; [eauto |].
  destruct (findRoom c rooms) as [r |]; [| eauto].
  specialize (Hm c eq_refl).
  assert (0 < stepsLeft V c) by (unfold stepsLeft; destruct (rank V c); lia).
  apply IH; [lia |].
  intros u Hu. apply previousOf_Some, stepsLeft_decreases in Hu. lia.
Qed.
End Reconstruction.

(** ** Graph search as a whole *)

Lemma pushIfAbsent_length (n : Room) (rooms : list Room) :
  length (pushIfAbsent n rooms) <= S (length rooms).
Proof.
  unfold pushIfAbsent. destruct (existsb _ rooms); [lia |].
  rewrite length_app. simpl. lia.
Qed.

Lemma pushIfAbsent_In (n r : Room) (rooms : list Room) :
  In r (pushIfAbsent n rooms) -> r = n \/ In r rooms.
Proof.
  unfold pushIfAbsent. destruct (existsb _ rooms); [now right |].
  rewrite in_app_iff. simpl. intuition congruence.
Qed.

Lemma workingRooms_length (start end_ : Room) (allRooms : list Room) :
  length (workingRooms start end_ allRooms) <= length allRooms + 2.
Proof.
  unfold workingRooms.
  pose proof (pushIfAbsent_length end_ (pushIfAbsent start allRooms)).
  pose proof (pushIfAbsent_length start allRooms). lia.
Qed.

Lemma workingRooms_In (start end_ r : Room) (allRooms : list Room) :
  In r (workingRooms start end_ allRooms) -> r = start \/ r = end_ \/ In r allRooms.
Proof.
  unfold workingRooms. intros H.
  apply pushIfAbsent_In in H as [H | H]; [tauto |].
  apply pushIfAbsent_In in H. tauto.
Qed.

Section GraphSearch.
Variables start end_ : Room.
Variable allRooms : list Room.

Lemma graphSearch_total (fuel : nat) :
  fuelFor allRooms <= fuel ->
  exists o, graphSearch fuel start end_ allRooms = Ok o.
Proof.
  intros Hfuel. unfold graphSearch, fuelFor in *.
  set (rooms := workingRooms start end_ allRooms).
  pose proof (workingRooms_length start end_ allRooms) as Hlen. fold rooms in Hlen.
  pose proof (initState_inv start rooms) as Inv0.
  destruct (searchLoop_total (id end_) rooms fuel [] _ Inv0) as (V & st & -> & Inv).
  { pose proof (inv_size _ _ _ Inv0). simpl in *. lia. }
  simpl.
  destruct (reconstruct_total rooms (previous st) V (inv_prev_rank _ _ _ Inv)
              fuel (Some (id end_)) []) as [p ->].
  - lia.
  - intros c _. unfold stepsLeft. pose proof (rank_le V c).
    pose proof (inv_size _ _ _ Inv). destruct (rank V c); lia.
  - simpl. eauto.
Qed.

(** What a successful search returns: nodes of the working list, from
    [start]'s id to [end_]'s id, each step along a listed connection. *)
Lemma graphSearch_Some (fuel : nat) (p : list Room) :
  graphSearch fuel start end_ allRooms = Ok (Some p) ->
  (exists first, head p = Some first /\ id first = id start)
  /\ (exists final, last p = Some final /\ id final = id end_)
  /\ Forall (fun r => In r (workingRooms start end_ allRooms)) p
  /\ directedChain p.
Proof.
  unfold graphSearch. set (rooms := workingRooms start end_ allRooms).
  pose proof (initState_inv start rooms) as Inv0.
  intros H. apply bind_Ok_inv in H as (st & Hloop & H).
  apply bind_Ok_inv in H as (q & Hrec & H).
  assert (exists V, SearchInv rooms V st) as [V Inv].
  { destruct (searchLoop_total (id end_) rooms
                (S (fuel + length (unvisited (initState start rooms)))) [] _ Inv0)
      as (V & st' & Hst' & Inv); [lia |].
    apply searchLoop_more_fuel
      with (fuel' := S (fuel + length (unvisited (initState start rooms)))) in Hloop;
      [| lia].
    exists V. congruence. }
  destruct q as [| first rest]; [discriminate |].
  destruct (id first =? id start)%string eqn:Hfirst; simpl in H; [| discriminate].
  injection H as <-. repeat split.
  - exists first. split; [reflexivity | now apply String.eqb_eq].
  - apply reconstruct_last in Hrec as [Hnil | Hlast]; [discriminate | exact Hlast].
  - apply reconstruct_prepends in Hrec as (q & -> & Hq). now rewrite app_nil_r.
  - apply (reconstruct_chain rooms (previous st) (inv_prev_edge _ _ _ Inv)) in Hrec;
      [exact Hrec | exact I | exact I].
Qed.

Lemma graphSearch_more_fuel (fuel fuel' : nat) (o : option (list Room)) :
  graphSearch fuel start end_ allRooms = Ok o ->
  fuel <= fuel' ->
  graphSearch fuel' start end_ allRooms = Ok o.
Proof.
  unfold graphSearch. intros H Hle.
  apply bind_Ok_inv in H as (st & Hloop & H).
  apply bind_Ok_inv in H as (q & Hrec & H).
  rewrite (searchLoop_more_fuel _ _ _ _ _ _ Hloop Hle). simpl.
  now rewrite (reconstruct_more_fuel _ _ _ _ _ _ _ Hrec Hle).
Qed.

(** The route never raises and never runs out of fuel. *)
Lemma getShortestPathFuel_total (fuel : nat) :
  fuelFor allRooms <= fuel ->
  exists p, getShortestPathFuel fuel start end_ allRooms = Ok p.
Proof.
  intros Hfuel. unfold getShortestPathFuel.
  destruct (createGridBasedPath_total start end_ allRooms) as (l & _ & Hgrid & _).
  destruct (_ || _); [eauto |].
  destruct (graphSearch_total fuel Hfuel) as [[p |] ->]; simpl; eauto.
Qed.

(** More fuel than [fuelFor] changes nothing. *)
Lemma getShortestPathFuel_enough (fuel : nat) :
  fuelFor allRooms <= fuel ->
  getShortestPathFuel fuel start end_ allRooms = getShortestPath start end_ allRooms.
Proof.
  intros Hfuel. unfold getShortestPath, getShortestPathFuel.
  destruct (_ || _); [reflexivity |].
  destruct (graphSearch_total (fuelFor allRooms) (le_n _)) as [o Ho].
  now rewrite Ho, (graphSearch_more_fuel _ _ _ Ho Hfuel).
Qed.

(** The two ways a route is produced. *)
Lemma getShortestPath_cases (p : list Room) :
  getShortestPath start end_ allRooms = Ok p ->
  createGridBasedPath start end_ allRooms = Ok p
  \/ graphSearch (fuelFor allRooms) start end_ allRooms = Ok (Some p).
Proof.
  unfold getShortestPath, getShortestPathFuel.
  destruct (_ || _); [now left |].
  intros H. apply bind_Ok_inv in H as ([q |] & Hsearch & H).
  - injection H as <-. now right.
  - now left.
Qed.
End GraphSearch.

(** ** The route facade *)

(** C1. Totality of the route facade: for every start node, destination
    node and node list, [getShortestPath] returns a path ([Ok]: no read of
    a field of [undefined], in the search or in the synthesis, and both
    loops end) and that path holds at least one node.  No assumption on
    the node list is needed: connections may be empty or dangling, ids may
    repeat, start may equal the destination. *)
Theorem getShortestPath_total (start end_ : Room) (allRooms : list Room) :
  exists p, getShortestPath start end_ allRooms = Ok p /\ p <> [].
Proof.
  destruct (getShortestPathFuel_total start end_ allRooms _ (le_n _)) as [p Hp].
  exists p. split; [exact Hp |].
  apply getShortestPath_cases in Hp as [Hp | Hp].
  - destruct (createGridBasedPath_total start end_ allRooms) as (l & _ & Hgrid & _).
    rewrite Hgrid in Hp. injection Hp as <-. discriminate.
  - apply graphSearch_Some in Hp as ([first [Hhead _]] & _). now destruct p.
Qed.

(** C3. Path endpoints: for every start, destination and node list, the
    path returned by [getShortestPath] begins with a node whose id is the
    start's id and ends with a node whose id is the destination's id, in
    the graph-search branch and in every synthesis branch. *)
Theorem getShortestPath_endpoints (start end_ : Room) (allRooms : list Room) :
  exists p first final,
    getShortestPath start end_ allRooms = Ok p
    /\ head p = Some first /\ id first = id start
    /\ last p = Some final /\ id final = id end_.
Proof.
  destruct (getShortestPathFuel_total start end_ allRooms _ (le_n _)) as [p Hp].
  exists p. pose proof Hp as Hcase.
  apply getShortestPath_cases in Hcase as [Hg | Hs].
  - destruct (createGridBasedPath_total start end_ allRooms)
      as (l & final & Hgrid & Hlast & Hid).
    rewrite Hgrid in Hg. injection Hg as <-.
    exists start, final. auto.
  - apply graphSearch_Some in Hs as ((first & Hh & Hf) & (final & Hl & Hid) & _).
    exists first, final. auto.
Qed.

Example route_AB :
  getShortestPath Examples.nodeA Examples.nodeB [Examples.nodeA; Examples.nodeB]
  = Ok [Examples.nodeA; Examples.nodeB].
Proof. vm_compute. reflexivity. Qed.

Example route_AB_length : pathLength [Examples.nodeA; Examples.nodeB] = 100%float.
Proof. vm_compute. reflexivity. Qed.

(** ** The waypoint detour selector *)

Lemma insertBy_In (cmp : Room -> Room -> float) (a w : Room) (l : list Room) :
  In w (insertBy cmp a l) <-> w = a \/ In w l.
Proof.
  induction l as [| b l IH]; simpl; [intuition congruence |].
  destruct (0 <? cmp a b)%float; simpl; [rewrite IH |]; intuition congruence.
Qed.

(** Sorting keeps exactly the elements it is given. *)
Lemma sortBy_In (cmp : Room -> Room -> float) (w : Room) (l : list Room) :
  In w (sortBy cmp l) <-> In w l.
Proof.
  unfold sortBy. induction l as [| a l IH]; simpl; [tauto |].
  rewrite insertBy_In, IH. intuition congruence.
Qed.

Lemma potentialWaypoints_In (start end_ w : Room) (waypoints : list Room) :
  In w (filter (fun w => detourBound start end_ w = true) waypoints)
  <-> detourBound start end_ w = true /\ In w waypoints.
Proof. now rewrite <- !list_elem_of_In, list_elem_of_filter. Qed.

Lemma waypoints_In (w : Room) (allRooms : list Room) :
  In w (filter (fun r => isWaypoint r = true) allRooms)
  <-> isWaypoint w = true /\ In w allRooms.
Proof. now rewrite <- !list_elem_of_In, list_elem_of_filter. Qed.

(** The corridor test of the horizontal leg, in words: some node that is
    neither an endpoint nor a waypoint has [x] strictly between [start.x]
    and the target and [y] within 20 of the corridor. *)
Lemma horizontalBlocked_true (start end_ : Room) (allRooms : list Room)
  (horizontalX horizontalY : float) :
  horizontalBlocked start end_ allRooms horizontalX horizontalY = true
  <-> exists r, In r allRooms
        /\ skipped start end_ r = false
        /\ (Math_min (x start) horizontalX <? x r)%float = true
        /\ (x r <? Math_max (x start) horizontalX)%float = true
        /\ (abs (y r - horizontalY) <? 20)%float = true.
Proof.
  unfold horizontalBlocked. rewrite existsb_exists. split.
  - intros (r & Hin & H). exists r. split; [exact Hin |].
    destruct (skipped start end_ r); [discriminate |].
    apply andb_true_iff in H as [H H3]. apply andb_true_iff in H as [H1 H2]. auto.
  - intros (r & Hin & Hs & H1 & H2 & H3). exists r. split; [exact Hin |].
    now rewrite Hs, H1, H2, H3.
Qed.

(** No existing waypoint lies within 15 units, in both axes, of a target. *)
Lemma no_waypoint_near (tx ty : float) (waypoints : list Room) :
  List.find (nearTarget tx ty) waypoints = None
  <-> Forall (fun w => nearTarget tx ty w = false) waypoints.
Proof.
  rewrite List.Forall_forall. split.
  - intros H w Hin. now apply (find_none _ _ H).
  - intros H. destruct (List.find _ waypoints) as [w |] eqn:E; [| reflexivity].
    apply find_some in E as [Hin Hw]. rewrite (H w Hin) in Hw. discriminate.
Qed.

(** What the selector does guarantee: [findRouteThroughWaypoints] always
    returns three nodes.  Either they are [start; w; end_] for a waypoint
    [w] of the given set with
    manhattan(start,w) + manhattan(w,end_) < manhattan(start,end_) * 1.5
    and both legs clear for [isPathObstructed], or no waypoint of the set
    passes both tests and they are [start; corner; end_] with the corner
    at (end_.x, start.y), produced without any obstruction test. *)
Lemma findRouteThroughWaypoints_shape (start end_ : Room) (waypoints allRooms : list Room) :
  length (findRouteThroughWaypoints start end_ waypoints allRooms) = 3
  /\ ((exists w,
         findRouteThroughWaypoints start end_ waypoints allRooms = [start; w; end_]
         /\ In w waypoints
         /\ (calculateManhattanDistance start w + calculateManhattanDistance w end_
             <? calculateManhattanDistance start end_ * 1.5)%float = true
         /\ isPathObstructed start w allRooms = false
         /\ isPathObstructed w end_ allRooms = false)
      \/ (findRouteThroughWaypoints start end_ waypoints allRooms
            = [start; cornerNode start end_; end_]
          /\ x (cornerNode start end_) = x end_
          /\ y (cornerNode start end_) = y start
          /\ Forall (fun w => detourBound start end_ w
                              && bothLegsClear start end_ allRooms w = false)
               waypoints)).
Proof.
  unfold findRouteThroughWaypoints.
  destruct (List.find _ _) as [w |] eqn:Hfind.
  - split; [reflexivity |]. left. exists w.
    apply find_some in Hfind as [Hin Hclear].
    apply sortBy_In, potentialWaypoints_In in Hin as [Hbound Hin].
    unfold bothLegsClear in Hclear.
    apply andb_true_iff in Hclear as [H1 H2].
    apply negb_true_iff in H1, H2. auto.
  - split; [reflexivity |]. right. repeat split.
    apply List.Forall_forall. intros w Hin.
    destruct (detourBound start end_ w) eqn:Hbound; [| reflexivity].
    simpl. apply (find_none _ _ Hfind).
    apply sortBy_In, potentialWaypoints_In. auto.
Qed.

(** C7. Detour selector postcondition, at three inputs.  The legs the
    selector takes for clear are those [isPathObstructed] reports clear,
    and that test measures the offset along the segment, not the distance
    to the line.
    - With the room [onLeg] halfway on the leg from [origin] to the
      waypoint [turn], at perpendicular distance 0, the selector returns
      [origin; turn; target]: a leg that is obstructed.
    - With the room [away] instead, 500 from the first leg and 100 from
      the second, both legs are unobstructed and [turn] is within the
      bound, yet the selector returns the corner.
    - From the route facade: the rise from [turn] to [target] is blocked
      by [onRise], the selector is called to go round it, and the route
      returned goes from [turn] straight to [target], through [onRise]. *)
Theorem findRouteThroughWaypoints_through_room :
  let '(f, t, w) := (Detour.origin, Detour.target, Detour.turn) in
  let '(m, z, b) := (Detour.onLeg, Detour.away, Detour.onRise) in
  detourBound f t w = true
  /\ isObstructedSpec f w [f; m; w; t] = true
  /\ isPathObstructed f w [f; m; w; t] = false
  /\ findRouteThroughWaypoints f t [w] [f; m; w; t] = [f; w; t]
  /\ isObstructedSpec f w [f; z; w; t] = false
  /\ isObstructedSpec w t [f; z; w; t] = false
  /\ isPathObstructed f w [f; z; w; t] = true
  /\ findRouteThroughWaypoints f t [w] [f; z; w; t] = [f; cornerNode f t; t]
  /\ verticalBlocked f t [f; w; b; t] (y w) (x w) (y t) = true
  /\ findRouteThroughWaypoints w t [w] [f; w; b; t] = [w; w; t]
  /\ getShortestPath f t [f; w; b; t] = Ok [f; w; w; t]
  /\ isObstructedSpec w t [f; w; b; t] = true.
Proof. vm_compute. repeat split. Qed.

(** ** The obstruction test *)

(** C4. The obstruction test at a node placed on the segment: [middle]
    lies halfway between [west] and [east], at perpendicular distance 0
    from their line, yet [linePassesThroughRoom] is false there and
    [isPathObstructed] reports a clear path.  The coefficients [A] and [B]
    are the direction of the segment where the formula needs its normal,
    so the value compared with the radius is the offset along the segment:
    50 for [middle], and 0 for [far], which is 500 away from the line and
    is reported as passed through. *)
Theorem linePassesThroughRoom_on_segment :
  let '(a, b, m, f) := (Corridor.west, Corridor.east, Corridor.middle, Corridor.far) in
  perpendicularDistance (x a) (y a) (x b) (y b) (x m) (y m) = 0%float
  /\ linePassesThroughRoom (x a) (y a) (x b) (y b) (x m) (y m) defaultRadius = false
  /\ isPathObstructed a b [a; m; b] = false
  /\ perpendicularDistance (x a) (y a) (x b) (y b) (x f) (y f) = 500%float
  /\ linePassesThroughRoom (x a) (y a) (x b) (y b) (x f) (y f) defaultRadius = true
  /\ isPathObstructed a b [a; f; b] = true.
Proof. vm_compute. repeat split. Qed.

(** ** Graph search on an empty id *)

(** C2. Shortest path through a node whose id is the empty string: the
    connection [origin -> target] has Euclidean length 50.  The search
    finds it: it ends with [distances[b] = 50] and [previous[b] = ""].
    The walk back tests [while (currentId)], takes the empty id for the
    end of the chain and stops one node short, at [[target]]; the route
    then falls back to the synthesized path, of length 70.  With any other
    id the same graph gives the connection path of length 50. *)
Theorem getShortestPath_empty_id :
  directedChain [EmptyId.origin; EmptyId.target]
  /\ pathLength [EmptyId.origin; EmptyId.target] = 50%float
  /\ match searchLoop (fuelFor EmptyId.graph) (id EmptyId.target) EmptyId.graph
             (initState EmptyId.origin EmptyId.graph) with
     | Ok st =>
         distanceOf (distances st) (id EmptyId.target) = 50%float
         /\ previousOf (previous st) (id EmptyId.target) = Some (id EmptyId.origin)
         /\ reconstruct (fuelFor EmptyId.graph) EmptyId.graph (previous st)
              (Some (id EmptyId.target)) [] = Ok [EmptyId.target]
     | _ => False
     end
  /\ getShortestPath EmptyId.origin EmptyId.target EmptyId.graph
     = Ok [EmptyId.origin;
           virtualH EmptyId.origin EmptyId.target;
           virtualV EmptyId.origin EmptyId.target 30 40;
           EmptyId.target]
  /\ pathLength [EmptyId.origin;
                 virtualH EmptyId.origin EmptyId.target;
                 virtualV EmptyId.origin EmptyId.target 30 40;
                 EmptyId.target] = 70%float
  /\ getShortestPath EmptyId.origin' EmptyId.target' EmptyId.graph'
     = Ok [EmptyId.origin'; EmptyId.target'].
Proof.
  split; [simpl; tauto |].
  vm_compute. repeat split.
Qed.

(** ** Order of binary64 comparisons *)

Lemma SFltb_irrefl (f : spec_float) : SFltb f f = false.
Proof.
  unfold SFltb, SFcompare.
  destruct f as [s | s | | s m e]; try reflexivity; try (now destruct s).
  change (IntDef.Z.compare e e) with (Z.compare e e).
  change (PosDef.Pos.compare_cont Eq m m) with (Pos.compare m m).
  rewrite Z.compare_refl, Pos.compare_refl. now destruct s.
Qed.

Lemma SFltb_trans (f1 f2 f3 : spec_float) :
  SFltb f1 f2 = true -> SFltb f2 f3 = true -> SFltb f1 f3 = true.
Proof.
  unfold SFltb, SFcompare.
  destruct f1 as [s1 | s1 | | s1 m1 e1], f2 as [s2 | s2 | | s2 m2 e2],
    f3 as [s3 | s3 | | s3 m3 e3];
    try destruct s1; try destruct s2; try destruct s3;
    try discriminate; try reflexivity.
  all: change (PosDef.Pos.compare_cont Eq) with Pos.compare.
  all: change IntDef.Z.compare with Z.compare.
  all: destruct (Z.compare_spec e1 e2), (Z.compare_spec e2 e3), (Z.compare_spec e1 e3);
    try discriminate; try reflexivity; try lia.
  all: destruct (Pos.compare_spec m1 m2), (Pos.compare_spec m2 m3),
         (Pos.compare_spec m1 m3);
    simpl; try discriminate; try reflexivity; try lia.
Qed.

Lemma float_ltb_irrefl (a : float) : (a <? a)%float = false.
Proof. rewrite ltb_spec. apply SFltb_irrefl. Qed.

Lemma float_ltb_trans (a b c : float) :
  (a <? b)%float = true -> (b <? c)%float = true -> (a <? c)%float = true.
Proof. rewrite !ltb_spec. apply SFltb_trans. Qed.

(** ** The nearest waypoint *)

Section Nearest.
Variable r : Room.

Lemma noneCloser_step (w n : Room) (l : list Room) :
  (calculateDistance r w <? calculateDistance r n)%float = true ->
  noneCloser r n l -> noneCloser r w l.
Proof.
  intros Hlt. unfold noneCloser. apply List.Forall_impl. intros w' Hw'.
  destruct (calculateDistance r w' <? calculateDistance r w)%float eqn:E; [| reflexivity].
  now rewrite (float_ltb_trans _ _ _ E Hlt) in Hw'.
Qed.

Lemma nearest_fold (rest seen : list Room) (n : Room) :
  In n seen ->
  noneCloser r n seen ->
  let w := fst (fold_left (nearestStep r) rest (n, calculateDistance r n)) in
  In w (seen ++ rest) /\ noneCloser r w (seen ++ rest).
Proof.
  revert seen n. induction rest as [| w0 rest IH]; intros seen n Hin Hnone; simpl.
  - now rewrite app_nil_r.
  - replace (seen ++ w0 :: rest) with ((seen ++ [w0]) ++ rest)
      by now rewrite <- app_assoc.
    change (nearestStep r (n, calculateDistance r n) w0)
      with (if (calculateDistance r w0 <? calculateDistance r n)%float
            then (w0, calculateDistance r w0) else (n, calculateDistance r n)).
    destruct (calculateDistance r w0 <? calculateDistance r n)%float eqn:E.
    + apply IH.
      * apply in_app_iff. right. now left.
      * apply Forall_app. split; [now apply (noneCloser_step w0 n) |].
        apply Forall_cons. split; [apply float_ltb_irrefl | constructor].
    + apply IH.
      * apply in_app_iff. now left.
      * apply Forall_app. split; [exact Hnone |].
        apply Forall_cons. split; [exact E | constructor].
Qed.

(** [findNearestWaypoint] fails only on an empty list, and otherwise
    returns a waypoint of the list that none of them beats. *)
Lemma findNearestWaypoint_spec (waypoints : list Room) :
  match findNearestWaypoint r waypoints with
  | None => waypoints = []
  | Some w => In w waypoints /\ noneCloser r w waypoints
  end.
Proof.
  destruct waypoints as [| w0 rest]; simpl; [reflexivity |].
  apply (nearest_fold rest [w0] w0); [now left |].
  apply Forall_cons. split; [apply float_ltb_irrefl | constructor].
Qed.
End Nearest.

(** ** The horizontal leg when its corridor is blocked *)




(** ** The bend of a synthesized path *)

(** C6, as stated, fails: for A at (0, 0) and B at (200, 150), neither
    connected, with no waypoint and no obstruction, the synthesized path
    has two points between A and B, the second at B's position. *)
Lemma bend_policy_two_points :
  let '(a, b) := (Diagonal.A, Diagonal.B) in
  connections a = []
  /\ (20 <? abs (x b - x a))%float = true
  /\ (20 <? abs (y b - y a))%float = true
  /\ horizontalBlocked a b [a; b] (x b) (y a) = false
  /\ verticalBlocked a b [a; b] (y a) (x b) (y b) = false
  /\ getShortestPath a b [a; b] = Ok [a; virtualH a b; virtualV a b 200 150; b]
  /\ ~ (exists p, getShortestPath a b [a; b] = Ok [a; p; b]).
Proof.
  vm_compute. repeat split. intros [p Hp]. discriminate.
Qed.

(** C6, amended.  For a start with no connections and a destination more
    than 20 away on both axes, when no node blocks either leg and no
    existing waypoint is reused, the synthesized path is
    [start; h; v; end_]: two intermediate points, [h] at
    (end_.x, start.y) and [v] at the destination's own position
    (end_.x, end_.y). *)
Theorem bend_policy (start end_ : Room) (allRooms : list Room) :
  let waypoints := filter (fun r => isWaypoint r = true) allRooms in
  connections start = [] ->
  (20 <? abs (x end_ - x start))%float = true ->
  (20 <? abs (y end_ - y start))%float = true ->
  List.find (nearTarget (x end_) (y start)) waypoints = None ->
  List.find (nearTarget (x end_) (y end_)) waypoints = None ->
  horizontalBlocked start end_ allRooms (x end_) (y start) = false ->
  verticalBlocked start end_ allRooms (y start) (x end_) (y end_) = false ->
  exists h v,
    getShortestPath start end_ allRooms = Ok [start; h; v; end_]
    /\ h = virtualH start end_ /\ x h = x end_ /\ y h = y start
    /\ v = virtualV start end_ (x end_) (y end_) /\ x v = x end_ /\ y v = y end_.
Proof.
  intros waypoints Hconn Hdx Hdy Hnear1 Hnear2 Hclear1 Hclear2.
  exists (virtualH start end_), (virtualV start end_ (x end_) (y end_)).
  repeat split.
  unfold getShortestPath, getShortestPathFuel. rewrite Hconn. cbn [isEmpty orb].
  unfold createGridBasedPath. fold waypoints.
  unfold horizontalLeg. rewrite Hdx, Hnear1, Hclear1.
  unfold verticalLeg. rewrite lastOf_snoc. cbn [mbind Outcome_bind mret Outcome_ret].
  unfold verticalLegFrom.
  change (y (virtualH start end_)) with (y start).
  change (x (virtualH start end_)) with (x end_).
  rewrite Hdy, Hnear2, Hclear2.
  unfold addDestination. rewrite lastOf_snoc. cbn [mbind Outcome_bind mret Outcome_ret].
  change (id (virtualV start end_ (x end_) (y end_)))
    with ("virtual-v-" +:+ id start +:+ "-" +:+ id end_)%string.
  destruct (String.eqb_spec ("virtual-v-" +:+ id start +:+ "-" +:+ id end_) (id end_))
    as [Heq | _]; [| reflexivity].
  exfalso. revert Heq. apply synthesized_id_neq. simpl. lia.
Qed.

Lemma bend_policy_witness :
  exists h v,
    getShortestPath Diagonal.A Diagonal.B [Diagonal.A; Diagonal.B]
      = Ok [Diagonal.A; h; v; Diagonal.B]
    /\ h = virtualH Diagonal.A Diagonal.B
    /\ x h = x Diagonal.B /\ y h = y Diagonal.A
    /\ v = virtualV Diagonal.A Diagonal.B (x Diagonal.B) (y Diagonal.B)
    /\ x v = x Diagonal.B /\ y v = y Diagonal.B.
Proof.
  apply (bend_policy Diagonal.A Diagonal.B [Diagonal.A; Diagonal.B]);
    vm_compute; reflexivity.
Defined.

(** ** Direction of the connections *)

(** C8, as stated, fails: [a] lists [b] and [b] does not list [a].  From
    [b] to [a] the search never crosses that edge and the route is
    synthesized; on the symmetrized graph the route is the edge itself. *)
Lemma one_way_edge :
  let '(a, b, g) := (OneWay.a, OneWay.b, OneWay.graph) in
  In (id b) (connections a)
  /\ getShortestPath b a g = Ok [b; virtualH b a; virtualV b a 0 0; a]
  /\ symmetrize g
     = [a; withConnections b ["c"; "a"]%string; withConnections OneWay.c ["b"%string]]
  /\ getShortestPath b a (symmetrize g) = Ok [withConnections b ["c"; "a"]%string; a]
  /\ getShortestPath (withConnections b ["c"; "a"]%string) a (symmetrize g)
     = Ok [withConnections b ["c"; "a"]%string; a]
  /\ getShortestPath b a g <> getShortestPath b a (symmetrize g).
Proof.
  vm_compute. repeat split; [now left | discriminate].
Qed.

(** C8, amended.  Connections are directed during graph search: an edge
    is crossed only from the node whose connections list the other.  Every
    path [getShortestPath] returns is either the synthesized grid path or
    the result of the graph search, and then each node on it lists the id
    of the node that follows it. *)
Theorem route_follows_listed_connections
  (start end_ : Room) (allRooms p : list Room) :
  getShortestPath start end_ allRooms = Ok p ->
  createGridBasedPath start end_ allRooms = Ok p
  \/ (graphSearch (fuelFor allRooms) start end_ allRooms = Ok (Some p)
      /\ directedChain p).
Proof.
  intros H. apply getShortestPath_cases in H as [H | H]; [now left |].
  right. split; [exact H |]. now apply graphSearch_Some in H.
Qed.

Lemma route_follows_listed_connections_witness :
  createGridBasedPath Examples.nodeA Examples.nodeB [Examples.nodeA; Examples.nodeB]
    = Ok [Examples.nodeA; Examples.nodeB]
  \/ (graphSearch (fuelFor [Examples.nodeA; Examples.nodeB])
        Examples.nodeA Examples.nodeB [Examples.nodeA; Examples.nodeB]
      = Ok (Some [Examples.nodeA; Examples.nodeB])
      /\ directedChain [Examples.nodeA; Examples.nodeB]).
Proof.
  apply (route_follows_listed_connections Examples.nodeA Examples.nodeB
           [Examples.nodeA; Examples.nodeB]).
  vm_compute. reflexivity.
Defined.

(** ** Synthesized nodes *)

Section Provenance.
Variables start end_ : Room.
Variable allRooms : list Room.
Variable waypoints : list Room.
Hypothesis waypoints_given : forall w, In w waypoints -> In w allRooms.

Lemma waypoint_given (w : Room) :
  In w waypoints -> givenOrSynthesized start end_ allRooms w.
Proof. intros H. left. auto. Qed.

Lemma findRouteThroughWaypoints_provenance (from : Room) :
  Forall (givenOrSynthesized start end_ allRooms)
    (tail (findRouteThroughWaypoints from end_ waypoints allRooms)).
Proof.
  unfold findRouteThroughWaypoints.
  destruct (List.find _ _) as [w |] eqn:Hfind; simpl.
  - apply find_some in Hfind as [Hin _].
    apply sortBy_In, potentialWaypoints_In in Hin as [_ Hin].
    apply Forall_cons. split; [now apply waypoint_given |].
    apply Forall_cons. split; [left; auto | constructor].
  - apply Forall_cons. split; [right; split; reflexivity |].
    apply Forall_cons. split; [left; auto | constructor].
Qed.

Lemma horizontalLeg_provenance (path : list Room) :
  Forall (givenOrSynthesized start end_ allRooms) path ->
  Forall (givenOrSynthesized start end_ allRooms)
    (horizontalLeg start end_ allRooms waypoints path).
Proof.
  intros Hpath. unfold horizontalLeg.
  destruct (20 <? abs (x end_ - x start))%float; [| exact Hpath].
  destruct (List.find _ waypoints) as [w |] eqn:Hfind.
  - apply find_some in Hfind as [Hin _].
    apply Forall_app. split; [exact Hpath |].
    apply Forall_cons. split; [now apply waypoint_given | constructor].
  - destruct (horizontalBlocked _ _ _ _ _).
    + pose proof (findNearestWaypoint_spec start waypoints) as Hspec.
      destruct (findNearestWaypoint start waypoints) as [w |]; [| exact Hpath].
      apply Forall_app. split; [exact Hpath |].
      apply Forall_cons. split; [now apply waypoint_given | constructor].
    + apply Forall_app. split; [exact Hpath |].
      apply Forall_cons. split; [right; split; reflexivity | constructor].
Qed.

Lemma verticalLegFrom_provenance (path : list Room) (lastPoint : Room) :
  Forall (givenOrSynthesized start end_ allRooms) path ->
  Forall (givenOrSynthesized start end_ allRooms)
    (verticalLegFrom start end_ allRooms waypoints path lastPoint).
Proof.
  intros Hpath. unfold verticalLegFrom.
  destruct (20 <? abs (y end_ - y lastPoint))%float; [| exact Hpath].
  destruct (List.find _ waypoints) as [w |] eqn:Hfind.
  - apply find_some in Hfind as [Hin _].
    apply Forall_app. split; [exact Hpath |].
    apply Forall_cons. split; [now apply waypoint_given | constructor].
  - destruct (verticalBlocked _ _ _ _ _ _).
    + apply Forall_app. split; [exact Hpath |].
      apply findRouteThroughWaypoints_provenance.
    + apply Forall_app. split; [exact Hpath |].
      apply Forall_cons. split; [right; split; reflexivity | constructor].
Qed.
End Provenance.

Lemma createGridBasedPath_provenance (start end_ : Room) (allRooms p : list Room) :
  createGridBasedPath start end_ allRooms = Ok p ->
  Forall (givenOrSynthesized start end_ allRooms) p.
Proof.
  unfold createGridBasedPath, verticalLeg, addDestination.
  set (waypoints := filter (fun r => isWaypoint r = true) allRooms).
  assert (forall w, In w waypoints -> In w allRooms) as Hw
    by (intros w H; now apply waypoints_In in H).
  intros H. apply bind_Ok_inv in H as (path & H1 & H2).
  apply bind_Ok_inv in H1 as (last1 & _ & H1). injection H1 as <-.
  apply bind_Ok_inv in H2 as (last2 & _ & H2). injection H2 as <-.
  match goal with
  | |- Forall _ (if _ then ?l ++ _ else ?l) =>
      assert (Forall (givenOrSynthesized start end_ allRooms) l) as Hl
  end.
  { apply verticalLegFrom_provenance, horizontalLeg_provenance; try exact Hw.
    apply Forall_cons. split; [left; auto | constructor]. }
  destruct (negb _); [| exact Hl].
  apply Forall_app. split; [exact Hl |].
  apply Forall_cons. split; [left; auto | constructor].
Qed.

Lemma getShortestPath_provenance (start end_ : Room) (allRooms p : list Room) :
  getShortestPath start end_ allRooms = Ok p ->
  Forall (givenOrSynthesized start end_ allRooms) p.
Proof.
  intros H. apply getShortestPath_cases in H as [H | H].
  - now apply createGridBasedPath_provenance.
  - apply graphSearch_Some in H as (_ & _ & Hin & _).
    eapply List.Forall_impl; [| exact Hin].
    intros v Hv. left. now apply workingRooms_In.
Qed.

(** C9, as stated, fails: the graph holds a room whose id is
    [virtual-h-a-b]; the route from [a] to [b] contains the synthesized
    horizontal waypoint, a different node with that same id. *)
Lemma synthesized_id_clash :
  let '(a, b) := (Diagonal.A, Diagonal.B) in
  getShortestPath a b Clash.graph = Ok [a; virtualH a b; virtualV a b 200 150; b]
  /\ In Clash.lab Clash.graph
  /\ id (virtualH a b) = id Clash.lab
  /\ virtualH a b <> Clash.lab.
Proof.
  vm_compute. repeat split; [tauto | discriminate].
Qed.

(** C9, amended.  Every node of a path returned by [getShortestPath] is
    the start, the destination or a node of the input list, or else a
    synthesized node: its connections are empty and its id begins with
    [virtual-h-], [virtual-v-] or [corner-].  Provided no id of the input
    list begins with one of these prefixes, the id of a synthesized node
    is distinct from the id of every input node. *)
Theorem synthesized_nodes (start end_ : Room) (allRooms p : list Room) :
  Forall (fun r => reservedPrefix (id r) = false) allRooms ->
  getShortestPath start end_ allRooms = Ok p ->
  Forall (fun v =>
            (v = start \/ v = end_ \/ In v allRooms)
            \/ (connections v = []
                /\ reservedPrefix (id v) = true
                /\ Forall (fun r => id r <> id v) allRooms)) p.
Proof.
  intros Hids H. apply getShortestPath_provenance in H.
  eapply List.Forall_impl; [| exact H].
  intros v [Hgiven | [Hconn Hpre]]; [now left | right].
  repeat split; try assumption.
  eapply List.Forall_impl; [| exact Hids].
  intros r Hr Heq. congruence.
Qed.

Lemma synthesized_nodes_witness :
  Forall (fun v =>
            (v = Diagonal.A \/ v = Diagonal.B \/ In v [Diagonal.A; Diagonal.B])
            \/ (connections v = []
                /\ reservedPrefix (id v) = true
                /\ Forall (fun r => id r <> id v) [Diagonal.A; Diagonal.B]))
    [Diagonal.A; virtualH Diagonal.A Diagonal.B;
     virtualV Diagonal.A Diagonal.B 200 150; Diagonal.B].
Proof.
  apply (synthesized_nodes Diagonal.A Diagonal.B [Diagonal.A; Diagonal.B]).
  - repeat constructor.
  - vm_compute. reflexivity.
Defined.

(** ** Start and destination are the same node *)

Lemma createGridBasedPath_same (s : Room) (allRooms : list Room) :
  createGridBasedPath s s allRooms = Ok [s].
Proof.
  unfold createGridBasedPath, horizontalLeg.
  rewrite sub_self_below_threshold.
  unfold verticalLeg, verticalLegFrom, addDestination.
  change (lastOf [s]) with (Ok s). cbn [mbind Outcome_bind mret Outcome_ret].
  rewrite sub_self_below_threshold.
  change (lastOf [s]) with (Ok s). cbn [mbind Outcome_bind mret Outcome_ret].
  now rewrite String.eqb_refl.
Qed.

Lemma existsb_find_None (f : Room -> bool) (l : list Room) :
  existsb f l = false <-> List.find f l = None.
Proof.
  induction l as [| r l IH]; simpl; [tauto |].
  destruct (f r); simpl; [split; discriminate | exact IH].
Qed.

Lemma findRoom_snoc (i : string) (l : list Room) (r : Room) :
  findRoom i l = None ->
  findRoom i (l ++ [r]) = if (id r =? i)%string then Some r else None.
Proof.
  unfold findRoom. induction l as [| r0 l IH]; simpl; [reflexivity |].
  destruct (id r0 =? i)%string; [discriminate | exact IH].
Qed.

(** When the list resolves the id of [n] to [n] or not at all, the
    working list resolves it to [n]. *)
Lemma pushIfAbsent_resolves (n : Room) (rooms : list Room) :
  findRoom (id n) rooms = None \/ findRoom (id n) rooms = Some n ->
  findRoom (id n) (pushIfAbsent n rooms) = Some n.
Proof.
  unfold pushIfAbsent. intros H.
  destruct (existsb (fun r => id r =? id n)%string rooms) eqn:E.
  - destruct H as [H | H]; [| exact H].
    apply existsb_find_None in H. unfold findRoom in *. congruence.
  - apply existsb_find_None in E.
    rewrite (findRoom_snoc _ _ _ E). now rewrite String.eqb_refl.
Qed.

(** In a list with unique ids, the id of a member resolves to it. *)
Lemma findRoom_unique (r : Room) (rooms : list Room) :
  List.NoDup (map id rooms) -> In r rooms -> findRoom (id r) rooms = Some r.
Proof.
  unfold findRoom. induction rooms as [| r0 rooms IH]; simpl; [tauto |].
  intros Hnd Hin. apply List.NoDup_cons_iff in Hnd as [Hfresh Hnd].
  destruct (String.eqb_spec (id r0) (id r)) as [Heq | Hne].
  - destruct Hin as [-> | Hin]; [reflexivity |].
    exfalso. apply Hfresh. rewrite Heq. now apply in_map.
  - destruct Hin as [-> | Hin]; [congruence | now apply IH].
Qed.

Section SameNode.
Variable start : Room.

Lemma initState_distances_fold (l : list Room) (st : SearchState) :
  (forall i, In i (unvisited st) -> distances st !! i = Some (initialDistance start i)) ->
  let st' := fold_left (initRoom start) l st in
  (forall i, In i (unvisited st') -> distances st' !! i = Some (initialDistance start i))
  /\ (forall i, In i (unvisited st) \/ In i (map id l) -> In i (unvisited st')).
Proof.
  revert st. induction l as [| r l IH]; intros st Hst; simpl; [tauto |].
  destruct (IH (initRoom start st r)) as [Hd Hu].
  - simpl. intros i Hi. destruct (decide (id r = i)) as [<- | Hne].
    + now rewrite lookup_insert_eq.
    + rewrite lookup_insert_ne by exact Hne. apply Hst.
      apply setAdd_In in Hi as [-> | Hi]; [congruence | exact Hi].
  - split; [exact Hd |]. intros i Hi. apply Hu. simpl.
    rewrite setAdd_In. destruct Hi as [Hi | [Hi | Hi]]; auto.
Qed.

Lemma initState_distances (rooms : list Room) (i : string) :
  In i (unvisited (initState start rooms)) ->
  distanceOf (distances (initState start rooms)) i = initialDistance start i.
Proof.
  intros Hi. unfold distanceOf, initState in *.
  destruct (initState_distances_fold rooms
              {| distances := ∅; previous := ∅; unvisited := [] |}) as [Hd _];
    [intros j [] |].
  now rewrite (Hd i Hi).
Qed.

Lemma initState_unvisited (rooms : list Room) (r : Room) :
  In r rooms -> In (id r) (unvisited (initState start rooms)).
Proof.
  intros Hr. unfold initState.
  destruct (initState_distances_fold rooms
              {| distances := ∅; previous := ∅; unvisited := [] |}) as [_ Hu];
    [intros j [] |].
  apply Hu. right. now apply in_map.
Qed.

Lemma initState_previous (rooms : list Room) (c : string) :
  previousOf (previous (initState start rooms)) c = None.
Proof.
  destruct (previousOf _ c) as [u |] eqn:E; [| reflexivity].
  apply previousOf_Some in E. unfold initState in E.
  destruct (initState_fold start rooms
              {| distances := ∅; previous := ∅; unvisited := [] |}) as (_ & Hp & _).
  apply Hp in E. simpl in E. now rewrite lookup_empty in E.
Qed.

Variable d : gmap string float.

Lemma selectMin_keeps_start (s : list string) :
  (forall i, In i s -> distanceOf d i = initialDistance start i) ->
  fold_left (selectStep d) s (Some (id start), 0%float) = (Some (id start), 0%float).
Proof.
  induction s as [| i s IH]; intros Hd; simpl; [reflexivity |].
  unfold selectStep at 2. simpl. rewrite (Hd i) by now left.
  unfold initialDistance. destruct (i =? id start)%string;
    (replace (_ <? _)%float with false by reflexivity);
    apply IH; intros j Hj; apply Hd; now right.
Qed.

(** Only the start has a finite initial distance: it is selected. *)
Lemma selectMin_start (s : list string) :
  (forall i, In i s -> distanceOf d i = initialDistance start i) ->
  In (id start) s ->
  selectMin d s = Some (id start).
Proof.
  unfold selectMin. induction s as [| i s IH]; intros Hd Hin; simpl; [destruct Hin |].
  unfold selectStep at 2. simpl. rewrite (Hd i) by now left.
  unfold initialDistance. destruct (String.eqb_spec i (id start)) as [-> | Hne].
  - replace (_ <? _)%float with true by reflexivity.
    rewrite selectMin_keeps_start; [reflexivity |].
    intros j Hj. apply Hd. now right.
  - replace (_ <? _)%float with false by reflexivity.
    apply IH; [intros j Hj; apply Hd; now right |].
    destruct Hin as [Heq | Hin]; [congruence | exact Hin].
Qed.
End SameNode.

Lemma graphSearch_same (s : Room) (allRooms : list Room) (fuel : nat) :
  findRoom (id s) allRooms = None \/ findRoom (id s) allRooms = Some s ->
  graphSearch (S (S fuel)) s s allRooms
  = Ok (if (id s =? "")%string then None else Some [s]).
Proof.
  intros Hs. unfold graphSearch.
  set (rooms := workingRooms s s allRooms).
  assert (findRoom (id s) rooms = Some s) as Hfind.
  { unfold rooms, workingRooms.
    apply pushIfAbsent_resolves. right. now apply pushIfAbsent_resolves. }
  assert (In (id s) (unvisited (initState s rooms))) as Hin.
  { apply initState_unvisited. now apply findRoom_Some in Hfind. }
  assert (searchStep (id s) rooms (initState s rooms) = Ok None) as Hstep.
  { unfold searchStep.
    destruct (unvisited (initState s rooms)) as [| i0 rest] eqn:Hunv; [reflexivity |].
    rewrite <- Hunv in Hin |- *.
    rewrite (selectMin_start s); [now rewrite String.eqb_refl | | exact Hin].
    intros i Hi. now apply initState_distances. }
  cbn [searchLoop]. rewrite Hstep.
  cbn [mbind Outcome_bind mret Outcome_ret reconstruct].
  destruct (id s =? "")%string; [reflexivity |].
  rewrite Hfind, initState_previous.
  cbn [mbind Outcome_bind mret Outcome_ret reconstruct].
  now rewrite String.eqb_refl.
Qed.

(** C10, as stated, fails: the node list holds another node with the id
    of [s]; the graph search resolves ids in the list, and the path it
    returns is that other node. *)
Lemma same_node_alias :
  getShortestPath Alias.s Alias.s [Alias.other] = Ok [Alias.other]
  /\ getShortestPath Alias.s Alias.s [Alias.other] <> Ok [Alias.s].
Proof.
  vm_compute. split; [reflexivity | discriminate].
Qed.

(** C10, amended.  For every node [s] and every node list in which the id
    of [s] resolves to [s] itself or to no node, [getShortestPath s s]
    returns exactly [[s]], whether or not [s] has connections: the main
    loop stops on selecting the destination, and the grid synthesis finds
    both legs below the threshold and does not append the destination
    again. *)
Theorem same_node_route (s : Room) (allRooms : list Room) :
  findRoom (id s) allRooms = None \/ findRoom (id s) allRooms = Some s ->
  getShortestPath s s allRooms = Ok [s].
Proof.
  intros Hs. unfold getShortestPath, getShortestPathFuel.
  destruct (_ || _); [apply createGridBasedPath_same |].
  unfold fuelFor. replace (length allRooms + 4) with (S (S (length allRooms + 2))) by lia.
  rewrite (graphSearch_same s allRooms _ Hs).
  cbn [mbind Outcome_bind mret Outcome_ret].
  destruct (id s =? "")%string; [apply createGridBasedPath_same | reflexivity].
Qed.

Lemma same_node_route_witness :
  getShortestPath Alias.s Alias.s [Alias.s; Examples.nodeB] = Ok [Alias.s].
Proof.
  apply (same_node_route Alias.s [Alias.s; Examples.nodeB]).
  right. reflexivity.
Defined.

(** * Part IV: the rest of the module, the map view and the page *)

(** ** Binary64 arithmetic *)

(** The sign given to the rounding is the sign of its result. *)
Lemma binary_round_aux_sign (s : bool) (m e : Z) (l : location) :
  match binary_round_aux prec emax s m e l with
  | S754_zero s' | S754_infinity s' | S754_finite s' _ _ => s' = s
  | S754_nan => True
  end.
Proof.
  unfold binary_round_aux.
  destruct (shr_fexp prec emax m e l) as [mrs' e'].
  destruct (shr_fexp prec emax _ e' loc_Exact) as [mrs'' e''].
  destruct (shr_m mrs''); [reflexivity | | exact I].
  destruct (_ <=? _)%Z; reflexivity.
Qed.

Lemma binary_round_aux_negated (s : bool) (m e : Z) (l : location) :
  negated (binary_round_aux prec emax s m e l) (binary_round_aux prec emax (negb s) m e l).
Proof.
  unfold binary_round_aux.
  destruct (shr_fexp prec emax m e l) as [mrs' e'].
  destruct (shr_fexp prec emax _ e' loc_Exact) as [mrs'' e''].
  destruct (shr_m mrs''); [exact I | | exact I].
  destruct (_ <=? _)%Z; simpl; auto.
Qed.

Lemma binary_normalize_negated (m e : Z) :
  negated (binary_normalize prec emax m e false) (binary_normalize prec emax (- m) e false).
Proof.
  destruct m as [| p | p]; simpl; [exact I | |];
    unfold binary_round; destruct (shl_align _ _ _) as [mz ez].
  - apply (binary_round_aux_negated false).
  - apply (binary_round_aux_negated true).
Qed.

Lemma negated_abs (s t : spec_float) : negated s t -> SFabs s = SFabs t.
Proof.
  destruct s, t; simpl; try tauto; try reflexivity.
  intros (_ & -> & ->). reflexivity.
Qed.

Lemma negated_sym (s t : spec_float) : negated s t -> negated t s.
Proof.
  destruct s as [a | a | | a m e], t as [b | b | | b m' e']; simpl; try tauto.
  - intros ->. now destruct a.
  - intros (-> & -> & ->). now destruct a.
Qed.

(** Swapping the operands of a subtraction negates the result. *)
Lemma SFsub_swap (f1 f2 : spec_float) :
  negated (SFsub prec emax f1 f2) (SFsub prec emax f2 f1).
Proof.
  destruct f1 as [s1 | s1 | | s1 m1 e1], f2 as [s2 | s2 | | s2 m2 e2];
    try (now destruct s1, s2); try (now destruct s1); try (now destruct s2);
    try exact I.
  unfold SFsub. cbv zeta. rewrite (Z.min_comm e2 e1).
  match goal with
  | |- negated (binary_normalize _ _ ?a _ _) (binary_normalize _ _ ?b _ _) =>
      replace b with (- a)%Z by lia
  end.
  apply binary_normalize_negated.
Qed.

Lemma SFmul_negated (s t z : spec_float) :
  negated s t -> negated (SFmul prec emax s z) (SFmul prec emax t z).
Proof.
  destruct s as [a | a | | a m e], t as [b | b | | b m' e']; try (simpl; tauto);
    destruct z as [c | c | | c mz ez]; try (intros _; exact I).
  all: try (intros H; simpl in H; subst; now destruct a, c).
  all: try (intros (-> & -> & ->); now destruct a, c).
  all: try (intros _; now destruct a, b, c).
  intros (-> & -> & ->). unfold SFmul.
  replace (xorb (negb a) c) with (negb (xorb a c)) by now destruct a, c.
  apply binary_round_aux_negated.
Qed.

Lemma SFadd_negated (s t u v : spec_float) :
  negated s t -> negated u v ->
  negated (SFadd prec emax s u) (SFadd prec emax t v).
Proof.
  destruct s as [a | a | | a m e], t as [b | b | | b m' e']; try (simpl; tauto);
    destruct u as [c | c | | c mu eu], v as [d | d | | d mv ev]; try (simpl; tauto).
  all: try (intros _ _; now destruct a, b, c, d).
  all: try (intros H1 H2; simpl in H1, H2; subst; now destruct a, c).
  all: try (intros _ H2; simpl in H2; subst; now destruct a, b, c).
  all: try (intros H1 _; simpl in H1; subst; now destruct a, c, d).
  all: try (intros _ (-> & -> & ->); now destruct a, b, c).
  all: try (intros H1 (-> & -> & ->); simpl in H1; subst; now destruct a, c).
  all: try (intros (-> & -> & ->) _; now destruct a, c, d).
  all: try (intros (-> & -> & ->) H2; simpl in H2; subst; now destruct a, c).
  intros (-> & -> & ->) (-> & -> & ->).
  unfold SFadd. cbv zeta.
  match goal with
  | |- negated (binary_normalize _ _ ?x _ _) (binary_normalize _ _ ?y _ _) =>
      replace y with (- x)%Z by (destruct a, c; simpl; lia)
  end.
  apply binary_normalize_negated.
Qed.

Lemma SFmul_comm (f1 f2 : spec_float) : SFmul prec emax f1 f2 = SFmul prec emax f2 f1.
Proof.
  destruct f1 as [s1 | s1 | | s1 m1 e1], f2 as [s2 | s2 | | s2 m2 e2]; simpl;
    try reflexivity; try (now rewrite xorb_comm).
  now rewrite xorb_comm, Pos.mul_comm, Z.add_comm.
Qed.

Lemma float_mul_comm (a b : float) : (a * b)%float = (b * a)%float.
Proof. apply Prim2SF_inj. rewrite !mul_spec. apply SFmul_comm. Qed.

Lemma SFmul_square_negated (s t : spec_float) :
  negated s t -> SFmul prec emax s s = SFmul prec emax t t.
Proof.
  destruct s as [a | a | | a m e], t as [b | b | | b m' e']; simpl; try tauto.
  - intros _. now destruct a, b.
  - intros ->. now destruct a.
  - intros (-> & -> & ->). now destruct a.
Qed.

(** [|a - b| = |b - a|], exactly. *)
Lemma float_abs_sub_swap (a b : float) : abs (a - b) = abs (b - a).
Proof.
  apply Prim2SF_inj. rewrite !abs_spec, !sub_spec.
  apply negated_abs, SFsub_swap.
Qed.

(** [(a - b)^2 = (b - a)^2], exactly. *)
Lemma float_square_sub_swap (a b : float) :
  ((a - b) * (a - b))%float = ((b - a) * (b - a))%float.
Proof.
  apply Prim2SF_inj. rewrite !mul_spec, !sub_spec.
  apply SFmul_square_negated, SFsub_swap.
Qed.

Lemma SFsqrt_notNegative (f : spec_float) : notNegative (SFsqrt prec emax f) = true.
Proof.
  destruct f as [s | s | | s m e]; try reflexivity; try (now destruct s).
  destruct s; [reflexivity |]. unfold SFsqrt.
  destruct (SFsqrt_core_binary prec emax (Z.pos m) e) as [[mz ez] lz].
  pose proof (binary_round_aux_sign false mz ez lz) as H.
  destruct (binary_round_aux prec emax false mz ez lz); try (now subst); reflexivity.
Qed.

Lemma SFabs_notNegative (f : spec_float) : notNegative (SFabs f) = true.
Proof. now destruct f. Qed.

Lemma SFadd_notNegative (f1 f2 : spec_float) :
  notNegative f1 = true -> notNegative f2 = true ->
  notNegative (SFadd prec emax f1 f2) = true.
Proof.
  destruct f1 as [s1 | s1 | | s1 m1 e1], f2 as [s2 | s2 | | s2 m2 e2];
    try (now destruct s1, s2); try (now destruct s1); try (now destruct s2);
    try reflexivity.
  destruct s1, s2; try discriminate. intros _ _.
  unfold SFadd. cbv zeta.
  unfold cond_Zopp. rewrite <- Pos2Z.inj_add. unfold binary_normalize, binary_round.
  destruct (shl_align (_ + _) _ _) as [mz ez].
  pose proof (binary_round_aux_sign false (Z.pos mz) ez loc_Exact) as H.
  destruct (binary_round_aux prec emax false (Z.pos mz) ez loc_Exact);
    try (now subst); reflexivity.
Qed.

Lemma notNegative_not_below_zero (f : spec_float) (s : bool) :
  notNegative f = true -> SFltb f (S754_zero s) = false.
Proof. destruct f as [a | a | | a m e]; simpl; try reflexivity; now destruct a. Qed.

Lemma SFsub_self (f : spec_float) : zeroOrNaN (SFsub prec emax f f) = true.
Proof.
  destruct f as [s | s | | s m e]; try reflexivity; try (now destruct s).
  unfold SFsub. cbv zeta.
  match goal with
  | |- zeroOrNaN (binary_normalize _ _ ?a _ _) = true => replace a with 0%Z by lia
  end.
  reflexivity.
Qed.

Lemma SFmul_zeroOrNaN (f z : spec_float) :
  zeroOrNaN f = true -> zeroOrNaN (SFmul prec emax f z) = true.
Proof. destruct f, z; simpl; try reflexivity; discriminate. Qed.

Lemma SFadd_zeroOrNaN (f1 f2 : spec_float) :
  zeroOrNaN f1 = true -> zeroOrNaN f2 = true ->
  zeroOrNaN (SFadd prec emax f1 f2) = true.
Proof.
  destruct f1 as [s1 | s1 | | s1 m1 e1], f2 as [s2 | s2 | | s2 m2 e2]; simpl;
    try reflexivity; try discriminate.
  now destruct s1, s2.
Qed.

Lemma SFdiv_zeroOrNaN (f1 f2 : spec_float) :
  zeroOrNaN f1 = true -> zeroOrNaN f2 = true -> SFdiv prec emax f1 f2 = S754_nan.
Proof. destruct f1, f2; simpl; try reflexivity; discriminate. Qed.

Lemma SFsqrt_zeroOrNaN (f : spec_float) :
  zeroOrNaN f = true -> zeroOrNaN (SFsqrt prec emax f) = true.
Proof. destruct f as [s | s | | s m e]; simpl; try reflexivity; discriminate. Qed.

Lemma SFabs_zeroOrNaN (f : spec_float) :
  zeroOrNaN f = true -> zeroOrNaN (SFabs f) = true.
Proof. destruct f; simpl; try reflexivity; discriminate. Qed.

(** ** Distances *)

(** The Euclidean distance does not depend on the order of the two nodes,
    for all coordinates, NaN and infinities included. *)
Theorem calculateDistance_symmetric (a b : Room) :
  calculateDistance a b = calculateDistance b a.
Proof.
  unfold calculateDistance.
  now rewrite (float_square_sub_swap (x a) (x b)), (float_square_sub_swap (y a) (y b)).
Qed.

(** The Manhattan distance does not depend on the order of the two nodes. *)
Theorem calculateManhattanDistance_symmetric (a b : Room) :
  calculateManhattanDistance a b = calculateManhattanDistance b a.
Proof.
  unfold calculateManhattanDistance.
  now rewrite (float_abs_sub_swap (x a) (x b)), (float_abs_sub_swap (y a) (y b)).
Qed.

(** Neither distance is ever below zero. *)
Theorem distances_never_negative (a b : Room) :
  (calculateDistance a b <? 0)%float = false
  /\ (calculateManhattanDistance a b <? 0)%float = false.
Proof.
  split; rewrite ltb_spec; apply notNegative_not_below_zero.
  - unfold calculateDistance. rewrite sqrt_spec. apply SFsqrt_notNegative.
  - unfold calculateManhattanDistance. rewrite add_spec, !abs_spec.
    apply SFadd_notNegative; apply SFabs_notNegative.
Qed.

(** ** The obstruction test: direction and degenerate segments *)

(** The test gives the same answer from either end of the segment. *)
Lemma linePassesThroughRoom_swap (x1 y1 x2 y2 roomX roomY roomRadius : float) :
  linePassesThroughRoom x2 y2 x1 y1 roomX roomY roomRadius
  = linePassesThroughRoom x1 y1 x2 y2 roomX roomY roomRadius.
Proof.
  unfold linePassesThroughRoom. cbv zeta.
  rewrite (float_square_sub_swap x2 x1), (float_square_sub_swap y2 y1).
  rewrite (float_mul_comm x2 y1), (float_mul_comm y2 x1).
  f_equal. f_equal. apply Prim2SF_inj.
  rewrite !abs_spec, !add_spec, !mul_spec, !sub_spec.
  apply negated_abs, SFadd_negated; [apply SFadd_negated |];
    try apply SFmul_negated; apply SFsub_swap.
Qed.

(** Between coincident points the quotient is 0/0: the test is false. *)
Lemma linePassesThroughRoom_degenerate (x1 y1 roomX roomY roomRadius : float) :
  linePassesThroughRoom x1 y1 x1 y1 roomX roomY roomRadius = false.
Proof.
  unfold linePassesThroughRoom. cbv zeta.
  rewrite (float_mul_comm y1 x1).
  rewrite ltb_spec, div_spec, abs_spec, sqrt_spec, !add_spec, !mul_spec, !sub_spec.
  unfold SF64div. rewrite SFdiv_zeroOrNaN; [reflexivity | |].
  - apply SFabs_zeroOrNaN, SFadd_zeroOrNaN; [apply SFadd_zeroOrNaN |];
      try apply SFmul_zeroOrNaN; apply SFsub_self.
  - apply SFsqrt_zeroOrNaN, SFadd_zeroOrNaN; apply SFmul_zeroOrNaN, SFsub_self.
Qed.

Lemma skipped_swap (start end_ r : Room) : skipped end_ start r = skipped start end_ r.
Proof. unfold skipped. now destruct (id r =? id start)%string, (id r =? id end_)%string. Qed.

(** The obstruction test gives the same answer in both directions. *)
Theorem isPathObstructed_symmetric (start end_ : Room) (allRooms : list Room) :
  isPathObstructed end_ start allRooms = isPathObstructed start end_ allRooms.
Proof.
  unfold isPathObstructed. induction allRooms as [| r rooms IH]; [reflexivity |].
  simpl. now rewrite IH, skipped_swap, linePassesThroughRoom_swap.
Qed.

(** Between two nodes at the same position nothing obstructs, whatever
    the list of rooms: the distance quotient is 0/0. *)
Theorem isPathObstructed_same_position (start end_ : Room) (allRooms : list Room) :
  x start = x end_ -> y start = y end_ ->
  isPathObstructed start end_ allRooms = false.
Proof.
  intros Hx Hy. unfold isPathObstructed. rewrite Hx, Hy.
  induction allRooms as [| r rooms IH]; [reflexivity |].
  simpl. rewrite IH, linePassesThroughRoom_degenerate. now destruct (skipped _ _ _).
Qed.

Lemma isPathObstructed_same_position_witness :
  isPathObstructed (virtualV Diagonal.A Diagonal.B 200 150) Diagonal.B
    [Diagonal.A; Corridor.middle; Diagonal.B] = false.
Proof.
  apply (isPathObstructed_same_position (virtualV Diagonal.A Diagonal.B 200 150)
           Diagonal.B [Diagonal.A; Corridor.middle; Diagonal.B]); reflexivity.
Defined.

(** ** Validation of a path *)

Lemma onPath_pair (a b r : Room) :
  isWaypoint r || onPath [a; b] r = skipped a b r.
Proof.
  unfold onPath, skipped. simpl.
  rewrite (String.eqb_sym (id a)), (String.eqb_sym (id b)).
  now destruct (isWaypoint r), (id r =? id a)%string, (id r =? id b)%string.
Qed.

(** On a path of two nodes the validation is the obstruction test of the
    router. *)
Theorem pathCrossesRoom_two_points (a b : Room) (rooms : list Room) :
  pathCrossesRoom [a; b] rooms = isPathObstructed a b rooms.
Proof.
  unfold pathCrossesRoom, isPathObstructed.
  change (segments [a; b]) with [(a, b)]. cbn [existsb]. rewrite orb_false_r.
  induction rooms as [| r rooms IH]; [reflexivity |].
  cbn [existsb]. now rewrite IH, onPath_pair.
Qed.

Lemma onPath_segment (path : list Room) (p1 p2 r : Room) :
  In (p1, p2) (segments path) -> onPath path r = false -> 
  (id r =? id p1)%string = false /\ (id r =? id p2)%string = false.
Proof.
  intros Hseg Hoff.
  assert (forall p, In p path -> (id r =? id p)%string = false) as Hall.
  { intros p Hp. unfold onPath in Hoff.
    destruct (id r =? id p)%string eqn:E; [| reflexivity].
    apply String.eqb_eq in E. 
    assert (existsb (fun p0 => (id p0 =? id r)%string) path = true) as Hex.
    { apply existsb_exists. exists p. split; [exact Hp |]. now apply String.eqb_eq. }
    congruence. }
  assert (In p1 path /\ In p2 path) as [H1 H2].
  { clear Hoff Hall. induction path as [| q [| q' rest] IH]; simpl in Hseg; try tauto.
    destruct Hseg as [[= <- <-] | Hseg].
    - split; [now left | right; now left].
    - destruct (IH Hseg) as [H1 H2]. split; now right. }
  split; now apply Hall.
Qed.

(** A crossing is an obstruction of one of the segments of the path; the
    room is none of the nodes of the path. *)
Theorem pathCrossesRoom_segment (path rooms : list Room) :
  pathCrossesRoom path rooms = true ->
  exists p1 p2 r,
    In (p1, p2) (segments path) /\ In r rooms
    /\ isWaypoint r = false /\ onPath path r = false
    /\ isPathObstructed p1 p2 rooms = true.
Proof.
  unfold pathCrossesRoom. intros H.
  apply existsb_exists in H as ([p1 p2] & Hseg & H).
  apply existsb_exists in H as (r & Hr & H).
  destruct (isWaypoint r) eqn:Hw; [discriminate |].
  destruct (onPath path r) eqn:Hoff; [discriminate |]. simpl in H.
  exists p1, p2, r. repeat split; try assumption.
  unfold isPathObstructed. apply existsb_exists. exists r. split; [exact Hr |].
  destruct (onPath_segment path p1 p2 r Hseg Hoff) as [H1 H2].
  unfold skipped. now rewrite H1, H2, Hw.
Qed.

Lemma pathCrossesRoom_segment_witness :
  exists p1 p2 r,
    In (p1, p2) (segments [Corridor.west; Corridor.east])
    /\ In r [Corridor.far]
    /\ isWaypoint r = false /\ onPath [Corridor.west; Corridor.east] r = false
    /\ isPathObstructed p1 p2 [Corridor.far] = true.
Proof.
  apply (pathCrossesRoom_segment [Corridor.west; Corridor.east] [Corridor.far]).
  vm_compute. reflexivity.
Defined.

(** The nodes of a path are never counted as crossed by it. *)
Theorem pathCrossesRoom_own_nodes (path : list Room) :
  pathCrossesRoom path path = false.
Proof.
  unfold pathCrossesRoom.
  assert (forall l, (forall r, In r l -> onPath path r = true) ->
            forall p1 p2,
              existsb (fun r =>
                if isWaypoint r || onPath path r then false
                else linePassesThroughRoom (x p1) (y p1) (x p2) (y p2) (x r) (y r)
                       defaultRadius) l = false) as Hinner.
  { induction l as [| r l IH]; intros Hl p1 p2; [reflexivity |].
    simpl. rewrite (Hl r) by now left. rewrite orb_true_r. simpl.
    apply IH. intros r' Hr'. apply Hl. now right. }
  assert (forall r, In r path -> onPath path r = true) as Hon.
  { intros r Hr. apply existsb_exists. exists r. split; [exact Hr | apply String.eqb_refl]. }
  induction (segments path) as [| [p1 p2] segs IH]; [reflexivity |].
  simpl. now rewrite (Hinner path Hon p1 p2).
Qed.

(** ** The second search *)

Section SearchAndWalk.
Variable start : Room.
Variable endId : string.
Variable rooms : list Room.

(** On any list, with enough fuel, the main loop and the walk back end
    without raising; the walk gives nodes of the list, chained by listed
    connections, the last one carrying [endId]. *)
Lemma search_and_walk (fuel : nat) :
  length rooms + 2 <= fuel ->
  exists st p,
    searchLoop fuel endId rooms (initState start rooms) = Ok st
    /\ reconstruct fuel rooms (previous st) (Some endId) [] = Ok p
    /\ (p = [] \/ exists final, last p = Some final /\ id final = endId)
    /\ Forall (fun r => In r rooms) p
    /\ directedChain p.
Proof.
  intros Hfuel.
  pose proof (initState_inv start rooms) as Inv0.
  destruct (searchLoop_total endId rooms fuel [] _ Inv0) as (V & st & Hloop & Inv).
  { pose proof (inv_size _ _ _ Inv0). simpl in *. lia. }
  destruct (reconstruct_total rooms (previous st) V (inv_prev_rank _ _ _ Inv)
              fuel (Some endId) []) as [p Hrec].
  - lia.
  - intros c _. unfold stepsLeft. pose proof (rank_le V c).
    pose proof (inv_size _ _ _ Inv). destruct (rank V c); lia.
  - exists st, p. repeat split; try assumption.
    + now apply reconstruct_last in Hrec.
    + apply reconstruct_prepends in Hrec as (q & -> & Hq). now rewrite app_nil_r.
    + apply (reconstruct_chain rooms (previous st) (inv_prev_edge _ _ _ Inv)) in Hrec;
        [exact Hrec | exact I | exact I].
Qed.
End SearchAndWalk.

(** [runDijkstra] never raises; its result runs from the id of [start] to
    the id of [end_], and is either the two-point path or a chain of nodes
    of the list in which each node lists the next. *)
Theorem runDijkstra_total (start end_ : Room) (allRooms : list Room) :
  exists p first final,
    runDijkstra start end_ allRooms = Ok p
    /\ head p = Some first /\ id first = id start
    /\ last p = Some final /\ id final = id end_
    /\ (p = [start; end_] \/ (Forall (fun r => In r allRooms) p /\ directedChain p)).
Proof.
  unfold runDijkstra, runDijkstraFuel, fuelFor.
  destruct (search_and_walk start (id end_) allRooms (length allRooms + 4))
    as (st & p & -> & Hrec & Hlast & Hin & Hchain); [lia |].
  cbn [mbind Outcome_bind]. cbv zeta. rewrite Hrec. cbn [mbind Outcome_bind mret Outcome_ret].
  destruct p as [| first rest].
  - exists [start; end_], start, end_. repeat split. now left.
  - destruct (id first =? id start)%string eqn:E; cbn [negb].
    + destruct Hlast as [Hnil | (final & Hlast & Hid)]; [discriminate |].
      exists (first :: rest), first, final. repeat split; try assumption.
      * now apply String.eqb_eq.
      * right. split; assumption.
    + exists [start; end_], start, end_. repeat split. now left.
Qed.

Lemma pushIfAbsent_present (n : Room) (rooms : list Room) :
  existsb (fun r => id r =? id n)%string rooms = true -> pushIfAbsent n rooms = rooms.
Proof. unfold pushIfAbsent. now intros ->. Qed.

(** On a list that holds both endpoints' ids, [runDijkstra] is the graph
    search of [getShortestPath] with another fallback. *)
Lemma runDijkstra_graphSearch (fuel : nat) (start end_ : Room) (allRooms : list Room) :
  existsb (fun r => id r =? id start)%string allRooms = true ->
  existsb (fun r => id r =? id end_)%string allRooms = true ->
  runDijkstraFuel fuel start end_ allRooms
  = (graphSearch fuel start end_ allRooms
       ≫= fun found => mret (default [start; end_] found)).
Proof.
  intros Hs He. unfold runDijkstraFuel, graphSearch, workingRooms.
  rewrite (pushIfAbsent_present start allRooms Hs), (pushIfAbsent_present end_ allRooms He).
  cbv zeta. destruct (searchLoop _ _ _ _) as [st | |]; try reflexivity.
  cbn [mbind Outcome_bind].
  destruct (reconstruct _ _ _ _ _) as [[| first rest] | |]; try reflexivity.
  cbn [mbind Outcome_bind mret Outcome_ret]. now destruct (negb _).
Qed.

(** For connected endpoints of the list, the two searches agree whenever
    the search finds a route, and differ only in what replaces it
    otherwise: the two-point path or the synthesized grid path. *)
Theorem runDijkstra_agrees (start end_ : Room) (allRooms : list Room) :
  isEmpty (connections start) = false ->
  isEmpty (connections end_) = false ->
  existsb (fun r => id r =? id start)%string allRooms = true ->
  existsb (fun r => id r =? id end_)%string allRooms = true ->
  (exists p, graphSearch (fuelFor allRooms) start end_ allRooms = Ok (Some p)
             /\ runDijkstra start end_ allRooms = Ok p
             /\ getShortestPath start end_ allRooms = Ok p)
  \/ (graphSearch (fuelFor allRooms) start end_ allRooms = Ok None
      /\ runDijkstra start end_ allRooms = Ok [start; end_]
      /\ getShortestPath start end_ allRooms = createGridBasedPath start end_ allRooms).
Proof.
  intros Hcs Hce Hs He.
  unfold runDijkstra, getShortestPath, getShortestPathFuel.
  rewrite (runDijkstra_graphSearch _ _ _ _ Hs He), Hcs, Hce. cbn [orb].
  destruct (graphSearch_total start end_ allRooms (fuelFor allRooms) (le_n _))
    as [[p |] ->]; cbn [mbind Outcome_bind mret Outcome_ret default].
  - left. eauto.
  - right. auto.
Qed.

Lemma runDijkstra_agrees_witness :
  (exists p, graphSearch (fuelFor [Examples.nodeA; Examples.nodeB])
               Examples.nodeA Examples.nodeB [Examples.nodeA; Examples.nodeB] = Ok (Some p)
             /\ runDijkstra Examples.nodeA Examples.nodeB [Examples.nodeA; Examples.nodeB]
                = Ok p
             /\ getShortestPath Examples.nodeA Examples.nodeB
                  [Examples.nodeA; Examples.nodeB] = Ok p)
  \/ (graphSearch (fuelFor [Examples.nodeA; Examples.nodeB])
        Examples.nodeA Examples.nodeB [Examples.nodeA; Examples.nodeB] = Ok None
      /\ runDijkstra Examples.nodeA Examples.nodeB [Examples.nodeA; Examples.nodeB]
         = Ok [Examples.nodeA; Examples.nodeB]
      /\ getShortestPath Examples.nodeA Examples.nodeB [Examples.nodeA; Examples.nodeB]
         = createGridBasedPath Examples.nodeA Examples.nodeB
             [Examples.nodeA; Examples.nodeB]).
Proof.
  apply (runDijkstra_agrees Examples.nodeA Examples.nodeB [Examples.nodeA; Examples.nodeB]);
    reflexivity.
Defined.

Lemma selectMin_none (d : gmap string float) (s : list string) :
  (forall i, In i s -> distanceOf d i = infinity) -> selectMin d s = None.
Proof.
  unfold selectMin. induction s as [| i s IH]; intros Hd; [reflexivity |].
  simpl. unfold selectStep at 2. simpl. rewrite (Hd i) by now left.
  replace (infinity <? infinity)%float with false by reflexivity.
  apply IH. intros j Hj. apply Hd. now right.
Qed.

(** A start whose id is not in the list is never selected: without the
    insertion of the endpoints that [getShortestPath] does, the search
    visits nothing and the result is the two-point path, whatever the
    connections. *)
Theorem runDijkstra_unknown_start (start end_ : Room) (allRooms : list Room) :
  existsb (fun r => id r =? id start)%string allRooms = false ->
  runDijkstra start end_ allRooms = Ok [start; end_].
Proof.
  intros Habsent.
  assert (forall r, In r allRooms -> id r <> id start) as Hids.
  { intros r Hr Heq.
    assert (existsb (fun r => id r =? id start)%string allRooms = true); [| congruence].
    apply existsb_exists. exists r. split; [exact Hr | now apply String.eqb_eq]. }
  assert (searchStep (id end_) allRooms (initState start allRooms) = Ok None) as Hstep.
  { unfold searchStep.
    destruct (unvisited (initState start allRooms)) as [| i0 rest] eqn:Hunv; [reflexivity |].
    rewrite <- Hunv. rewrite selectMin_none; [reflexivity |].
    intros i Hi. rewrite initState_distances by exact Hi.
    unfold initialDistance. destruct (String.eqb_spec i (id start)) as [-> | _]; [| reflexivity].
    exfalso. unfold initState in Hi.
    destruct (initState_fold start allRooms
                {| distances := ∅; previous := ∅; unvisited := [] |}) as (Hu & _ & _).
    apply Hu in Hi as [[] | Hi]. apply in_map_iff in Hi as (r & Heq & Hr).
    now apply (Hids r Hr). }
  unfold runDijkstra, runDijkstraFuel, fuelFor.
  replace (length allRooms + 4) with (S (S (length allRooms + 2))) by lia.
  cbv zeta. cbn [searchLoop]. rewrite Hstep.
  cbn [mbind Outcome_bind mret Outcome_ret reconstruct].
  destruct (id end_ =? "")%string; [reflexivity |].
  destruct (findRoom (id end_) allRooms) as [r |] eqn:Hr; [| reflexivity].
  rewrite initState_previous. cbn [mbind Outcome_bind mret Outcome_ret reconstruct].
  apply findRoom_Some in Hr as [Hr Hid].
  destruct (String.eqb_spec (id r) (id start)) as [Heq | _]; [| reflexivity].
  now apply Hids in Hr.
Qed.

Lemma runDijkstra_unknown_start_witness :
  runDijkstra Examples.nodeA Examples.nodeB [Examples.nodeB] = Ok [Examples.nodeA; Examples.nodeB].
Proof.
  apply (runDijkstra_unknown_start Examples.nodeA Examples.nodeB [Examples.nodeB]).
  reflexivity.
Defined.

(** ** A route found by the search visits no node twice *)

Section WalkOrder.
Variable rooms : list Room.
Variable prev : gmap string (option string).
Variable V : list string.
Hypothesis prev_rank : forall n u, prev !! n = Some (Some u) ->
  0 < rank V u /\ (rank V n = 0 \/ rank V u < rank V n).

(** Along the path the nodes are further and further from the oldest
    visited node. *)
Lemma reconstruct_ascending (fuel : nat) (cur : option string) (path p : list Room) :
  StronglySorted (fun a b => stepsLeft V (id a) < stepsLeft V (id b)) path ->
  (forall c, cur = Some c -> Forall (fun r => stepsLeft V c < stepsLeft V (id r)) path) ->
  reconstruct fuel rooms prev cur path = Ok p ->
  StronglySorted (fun a b => stepsLeft V (id a) < stepsLeft V (id b)) p.
Proof.
  revert cur path. induction fuel as [| fuel IH]; intros cur path Hs Hc H; [discriminate |].
  simpl in H. destruct cur as [c |]; [| now injection H as <-].
  destruct (c =? "")%string; [now injection H as <- |].
  destruct (findRoom c rooms) as [r |] eqn:Hr; [| now injection H as <-].
  apply findRoom_Some in Hr as [_ Hid]. specialize (Hc c eq_refl).
  apply IH in H; [exact H | |].
  - constructor; [exact Hs |]. rewrite Hid. exact Hc.
  - intros u Hu. apply previousOf_Some, (stepsLeft_decreases prev V prev_rank) in Hu.
    apply Forall_cons. split; [now rewrite Hid |].
    eapply List.Forall_impl; [| exact Hc]. intros r' Hr'. simpl in Hr'. lia.
Qed.
End WalkOrder.

Lemma ascending_NoDup (V : list string) (p : list Room) :
  StronglySorted (fun a b => stepsLeft V (id a) < stepsLeft V (id b)) p ->
  List.NoDup (map id p).
Proof.
  induction 1 as [| a l Hl IH Ha]; simpl; constructor; [| exact IH].
  intros Hin. apply in_map_iff in Hin as (b & Heq & Hb).
  rewrite List.Forall_forall in Ha. specialize (Ha b Hb). rewrite Heq in Ha. lia.
Qed.

(** The path returned by the graph search is ordered by the visits of the
    search, for some order of visits. *)
Lemma graphSearch_ascending
  (fuel : nat) (start end_ : Room) (allRooms p : list Room) :
  graphSearch fuel start end_ allRooms = Ok (Some p) ->
  exists V, StronglySorted (fun a b => stepsLeft V (id a) < stepsLeft V (id b)) p.
Proof.
  unfold graphSearch. set (rooms := workingRooms start end_ allRooms).
  pose proof (initState_inv start rooms) as Inv0.
  intros H. apply bind_Ok_inv in H as (st & Hloop & H).
  apply bind_Ok_inv in H as (q & Hrec & H).
  assert (exists V, SearchInv rooms V st) as [V Inv].
  { destruct (searchLoop_total (id end_) rooms
                (S (fuel + length (unvisited (initState start rooms)))) [] _ Inv0)
      as (V & st' & Hst' & Inv); [lia |].
    apply searchLoop_more_fuel
      with (fuel' := S (fuel + length (unvisited (initState start rooms)))) in Hloop;
      [| lia].
    exists V. congruence. }
  assert (p = q) as ->.
  { destruct q as [| first rest]; [discriminate |].
    destruct (negb _); [discriminate | now injection H as <-]. }
  exists V.
  apply (reconstruct_ascending rooms (previous st) V (inv_prev_rank _ _ _ Inv)) in Hrec;
    [exact Hrec | constructor | intros c _; constructor].
Qed.

(** Nodes of a list with distinct ids are no more than the list has. *)
Lemma distinct_length (p rooms : list Room) :
  List.NoDup (map id p) -> Forall (fun r => In r rooms) p -> length p <= length rooms.
Proof.
  intros Hnd Hin.
  assert (length (map id p) <= length (map id rooms)) as Hle.
  { apply List.NoDup_incl_length; [exact Hnd |].
    intros i Hi. apply in_map_iff in Hi as (r & <- & Hr). apply in_map.
    rewrite List.Forall_forall in Hin. now apply Hin. }
  now rewrite !length_map in Hle.
Qed.

(** The path returned by the graph search never passes twice through the
    same id, so it has no more nodes than the working list. *)
Theorem graphSearch_no_repeat
  (fuel : nat) (start end_ : Room) (allRooms p : list Room) :
  graphSearch fuel start end_ allRooms = Ok (Some p) ->
  List.NoDup (map id p) /\ length p <= length allRooms + 2.
Proof.
  intros H. destruct (graphSearch_ascending _ _ _ _ _ H) as [V Hsorted].
  apply ascending_NoDup in Hsorted. split; [exact Hsorted |].
  apply graphSearch_Some in H as (_ & _ & Hin & _).
  pose proof (distinct_length _ _ Hsorted Hin).
  pose proof (workingRooms_length start end_ allRooms). lia.
Qed.

Lemma graphSearch_no_repeat_witness :
  List.NoDup (map id [Examples.nodeA; Examples.nodeB])
  /\ length [Examples.nodeA; Examples.nodeB] <= length [Examples.nodeA; Examples.nodeB] + 2.
Proof.
  apply (graphSearch_no_repeat 6 Examples.nodeA Examples.nodeB
           [Examples.nodeA; Examples.nodeB]).
  vm_compute. reflexivity.
Defined.

(** ** The nearest waypoint is the first of the nearest *)

Lemma SFleb_ltb_trans (f1 f2 f3 : spec_float) :
  SFleb f1 f2 = true -> SFltb f2 f3 = true -> SFltb f1 f3 = true.
Proof.
  unfold SFleb, SFltb, SFcompare.
  destruct f1 as [s1 | s1 | | s1 m1 e1], f2 as [s2 | s2 | | s2 m2 e2],
    f3 as [s3 | s3 | | s3 m3 e3];
    try destruct s1; try destruct s2; try destruct s3;
    try discriminate; try reflexivity.
  all: change (PosDef.Pos.compare_cont Eq) with Pos.compare.
  all: change IntDef.Z.compare with Z.compare.
  all: destruct (Z.compare_spec e1 e2), (Z.compare_spec e2 e3), (Z.compare_spec e1 e3);
    try discriminate; try reflexivity; try lia.
  all: destruct (Pos.compare_spec m1 m2), (Pos.compare_spec m2 m3),
         (Pos.compare_spec m1 m3);
    simpl; try discriminate; try reflexivity; try lia.
Qed.

Lemma float_leb_ltb_trans (a b c : float) :
  (a <=? b)%float = true -> (b <? c)%float = true -> (a <? c)%float = true.
Proof. rewrite leb_spec, !ltb_spec. apply SFleb_ltb_trans. Qed.

Lemma float_ltb_leb (a b : float) : (a <? b)%float = true -> (a <=? b)%float = true.
Proof.
  rewrite leb_spec, ltb_spec. unfold SFleb, SFltb.
  now destruct (SFcompare (Prim2SF a) (Prim2SF b)) as [[| |] |].
Qed.

(** A strictly closer node pushes everything seen so far strictly
    farther. *)
Lemma farther_step (d dw dn : float) :
  (dw <? dn)%float = true ->
  ((d <=? dn)%float = false \/ (d <? dn)%float = false) ->
  (d <=? dw)%float = false.
Proof.
  intros Hlt H. destruct (d <=? dw)%float eqn:E; [| reflexivity].
  pose proof (float_leb_ltb_trans _ _ _ E Hlt) as Hd.
  destruct H as [H | H]; [| congruence].
  apply float_ltb_leb in Hd. congruence.
Qed.

Section FirstNearest.
Variable r : Room.

Lemma nearest_fold_first (rest l1 l2 : list Room) (n : Room) :
  Forall (fun w' => (calculateDistance r w' <=? calculateDistance r n)%float = false) l1 ->
  Forall (fun w' => (calculateDistance r w' <? calculateDistance r n)%float = false) l2 ->
  exists k1 k2,
    l1 ++ n :: l2 ++ rest
    = k1 ++ fst (fold_left (nearestStep r) rest (n, calculateDistance r n)) :: k2
    /\ Forall (fun w' =>
         (calculateDistance r w'
          <=? calculateDistance r
                (fst (fold_left (nearestStep r) rest (n, calculateDistance r n))))%float
         = false) k1
    /\ Forall (fun w' =>
         (calculateDistance r w'
          <? calculateDistance r
               (fst (fold_left (nearestStep r) rest (n, calculateDistance r n))))%float
         = false) k2.
Proof.
  revert l1 l2 n. induction rest as [| w rest IH]; intros l1 l2 n H1 H2.
  - exists l1, l2. rewrite app_nil_r. auto.
  - cbn [fold_left].
    change (nearestStep r (n, calculateDistance r n) w)
      with (if (calculateDistance r w <? calculateDistance r n)%float
            then (w, calculateDistance r w) else (n, calculateDistance r n)).
    destruct (calculateDistance r w <? calculateDistance r n)%float eqn:E.
    + destruct (IH (l1 ++ n :: l2) [] w) as (k1 & k2 & Heq & Hk1 & Hk2).
      * apply Forall_app. split; [| apply Forall_cons; split].
        -- eapply List.Forall_impl; [| exact H1]. intros w' Hw'. simpl in Hw'.
           apply (farther_step _ _ _ E). now left.
        -- apply (farther_step _ _ _ E). right. apply float_ltb_irrefl.
        -- eapply List.Forall_impl; [| exact H2]. intros w' Hw'. simpl in Hw'.
           apply (farther_step _ _ _ E). now right.
      * constructor.
      * exists k1, k2. split; [| auto].
        rewrite <- Heq. now rewrite <- !app_assoc.
    + destruct (IH l1 (l2 ++ [w]) n) as (k1 & k2 & Heq & Hk1 & Hk2).
      * exact H1.
      * apply Forall_app. split; [exact H2 |]. apply Forall_cons. split; [exact E | constructor].
      * exists k1, k2. split; [| auto].
        rewrite <- Heq. now rewrite <- !app_assoc.
Qed.
End FirstNearest.

(** [findNearestWaypoint] returns [null] exactly on an empty list;
    otherwise the first of the nearest waypoints: every waypoint before it
    is strictly farther (or at a NaN distance) and no waypoint after it is
    strictly closer. *)
Theorem findNearestWaypoint_first (r : Room) (waypoints : list Room) :
  match findNearestWaypoint r waypoints with
  | None => waypoints = []
  | Some w =>
      exists before after,
        waypoints = before ++ w :: after
        /\ Forall (fun w' => (calculateDistance r w' <=? calculateDistance r w)%float = false)
             before
        /\ Forall (fun w' => (calculateDistance r w' <? calculateDistance r w)%float = false)
             after
  end.
Proof.
  destruct waypoints as [| w0 rest]; [reflexivity |].
  unfold findNearestWaypoint.
  destruct (nearest_fold_first r rest [] [] w0) as (k1 & k2 & Heq & Hk1 & Hk2);
    [constructor | constructor |].
  exists k1, k2. auto.
Qed.

(** ** Size of a synthesized path *)

Section GridSize.
Variables start end_ : Room.
Variable allRooms : list Room.

Lemma horizontalLeg_size (waypoints : list Room) :
  exists l, horizontalLeg start end_ allRooms waypoints [start] = start :: l /\ length l <= 1.
Proof.
  unfold horizontalLeg.
  destruct (20 <? abs (x end_ - x start))%float; [| exists []; auto].
  destruct (List.find _ waypoints) as [w |]; [exists [w]; auto |].
  destruct (horizontalBlocked _ _ _ _ _); [| eexists [_]; auto].
  destruct (findNearestWaypoint _ _) as [w |]; [exists [w]; auto | exists []; auto].
Qed.

Lemma verticalLegFrom_size (waypoints path : list Room) (lastPoint : Room) :
  exists l,
    verticalLegFrom start end_ allRooms waypoints path lastPoint = path ++ l
    /\ (length l <= 1 \/ exists m, l = [m; end_]).
Proof.
  unfold verticalLegFrom.
  destruct (20 <? abs (y end_ - y lastPoint))%float;
    [| exists []; rewrite app_nil_r; auto].
  destruct (List.find _ waypoints) as [w |]; [exists [w]; auto |].
  destruct (verticalBlocked _ _ _ _ _ _); [| eexists [_]; auto].
  eexists. split; [reflexivity |]. right.
  unfold findRouteThroughWaypoints. destruct (List.find _ _); simpl; eauto.
Qed.
End GridSize.

(** A synthesized path has between one and four nodes: the start, at most
    two intermediate points and the destination. *)
Lemma createGridBasedPath_length (start end_ : Room) (allRooms : list Room) :
  exists p,
    createGridBasedPath start end_ allRooms = Ok p /\ 1 <= length p <= 4.
Proof.
  unfold createGridBasedPath, verticalLeg, addDestination.
  set (waypoints := filter (fun r => isWaypoint r = true) allRooms).
  destruct (horizontalLeg_size start end_ allRooms waypoints) as (l1 & -> & Hl1).
  destruct (lastOf_nonempty (start :: l1)) as (last1 & -> & _); [discriminate |].
  cbn [mbind Outcome_bind mret Outcome_ret].
  destruct (verticalLegFrom_size start end_ allRooms waypoints (start :: l1) last1)
    as (l2 & -> & Hl2).
  destruct Hl2 as [Hl2 | (m & ->)].
  - destruct (lastOf_nonempty ((start :: l1) ++ l2)) as (last2 & -> & _); [discriminate |].
    cbn [mbind Outcome_bind mret Outcome_ret].
    eexists. split; [reflexivity |].
    destruct (negb _); rewrite ?length_app; simpl; rewrite ?length_app; simpl; lia.
  - replace ((start :: l1) ++ [m; end_]) with (((start :: l1) ++ [m]) ++ [end_])
      by now rewrite <- app_assoc.
    rewrite lastOf_snoc. cbn [mbind Outcome_bind mret Outcome_ret].
    rewrite String.eqb_refl. cbn [negb].
    eexists. split; [reflexivity |].
    rewrite !length_app. simpl. lia.
Qed.

(** For nodes within the threshold of 20 on both axes the synthesized path
    is the direct one: no waypoint is looked up and no corridor is
    tested. *)
Theorem createGridBasedPath_near (start end_ : Room) (allRooms : list Room) :
  (20 <? abs (x end_ - x start))%float = false ->
  (20 <? abs (y end_ - y start))%float = false ->
  createGridBasedPath start end_ allRooms
  = Ok (if (id start =? id end_)%string then [start] else [start; end_]).
Proof.
  intros Hx Hy. unfold createGridBasedPath, horizontalLeg. rewrite Hx.
  unfold verticalLeg, verticalLegFrom, addDestination.
  change (lastOf [start]) with (Ok start). cbn [mbind Outcome_bind mret Outcome_ret].
  rewrite Hy. change (lastOf [start]) with (Ok start).
  cbn [mbind Outcome_bind mret Outcome_ret].
  now destruct (id start =? id end_)%string.
Qed.

Lemma createGridBasedPath_near_witness :
  createGridBasedPath Nearby.desk Nearby.door [Nearby.desk; Nearby.shelf; Nearby.door]
  = Ok (if (id Nearby.desk =? id Nearby.door)%string
        then [Nearby.desk] else [Nearby.desk; Nearby.door]).
Proof.
  apply (createGridBasedPath_near Nearby.desk Nearby.door
           [Nearby.desk; Nearby.shelf; Nearby.door]); reflexivity.
Defined.

(** ** The map view: zoom and hit test *)

Lemma float_ltb_asym (a b : float) : (a <? b)%float = true -> (b <? a)%float = false.
Proof.
  intros H. destruct (b <? a)%float eqn:E; [| reflexivity].
  pose proof (float_ltb_trans _ _ _ H E) as Haa. now rewrite float_ltb_irrefl in Haa.
Qed.

Lemma float_ltb_nan_l (a : float) : (nan <? a)%float = false.
Proof. rewrite ltb_spec. reflexivity. Qed.

Lemma float_ltb_nan_r (a : float) : (a <? nan)%float = false.
Proof. rewrite ltb_spec. change (Prim2SF nan) with S754_nan. now destruct (Prim2SF a). Qed.

(** [Math.max] is NaN or one of its arguments, and below neither. *)
Lemma Math_max_spec (a b : float) :
  (Math_max a b = nan /\ isNaN a || isNaN b = true
   \/ (Math_max a b = a \/ Math_max a b = b) /\ isNaN a || isNaN b = false)
  /\ (Math_max a b <? a)%float = false
  /\ (Math_max a b <? b)%float = false.
Proof.
  unfold Math_max. destruct (isNaN a || isNaN b).
  { rewrite !float_ltb_nan_l. auto. }
  destruct (a <? b)%float eqn:E1.
  { rewrite float_ltb_irrefl, (float_ltb_asym _ _ E1). auto. }
  destruct (b <? a)%float eqn:E2.
  { rewrite float_ltb_irrefl, E1. auto. }
  destruct (isNegZero a); rewrite float_ltb_irrefl, ?E1, ?E2; auto.
Qed.

(** [Math.min] is NaN or one of its arguments, and above neither. *)
Lemma Math_min_spec (a b : float) :
  (Math_min a b = nan /\ isNaN a || isNaN b = true
   \/ (Math_min a b = a \/ Math_min a b = b) /\ isNaN a || isNaN b = false)
  /\ (a <? Math_min a b)%float = false
  /\ (b <? Math_min a b)%float = false.
Proof.
  unfold Math_min. destruct (isNaN a || isNaN b).
  { rewrite !float_ltb_nan_r. auto. }
  destruct (a <? b)%float eqn:E1.
  { rewrite float_ltb_irrefl, (float_ltb_asym _ _ E1). auto. }
  destruct (b <? a)%float eqn:E2.
  { rewrite float_ltb_irrefl, E1. auto. }
  destruct (isNegZero a); rewrite float_ltb_irrefl, ?E1, ?E2; auto.
Qed.

(** Whatever the wheel event and the scale before it, the scale that
    [handleWheel] sets is NaN exactly when the unclamped value is, and
    otherwise lies between 0.5 and 3.  [zoomIn] never goes above 3 and
    [zoomOut] never below 0.5. *)
Theorem zoom_clamped (scale deltaY : float) :
  (CollegeMap.handleWheel scale deltaY <? 0.5)%float = false
  /\ (3 <? CollegeMap.handleWheel scale deltaY)%float = false
  /\ isNaN (CollegeMap.handleWheel scale deltaY) = isNaN (scale - deltaY * 0.001)%float
  /\ (3 <? CollegeMap.zoomIn scale)%float = false
  /\ (CollegeMap.zoomOut scale <? 0.5)%float = false.
Proof.
  unfold CollegeMap.handleWheel, CollegeMap.zoomIn, CollegeMap.zoomOut. cbv zeta.
  set (n := (scale - deltaY * 0.001)%float).
  destruct (Math_max_spec 0.5 n) as (Hmax & Hlow & _).
  destruct (Math_min_spec (Math_max 0.5 n) 3) as (Hmin & _ & Hhigh).
  destruct (Math_min_spec (scale + 0.1)%float 3) as (_ & _ & Hin).
  destruct (Math_max_spec (scale - 0.1)%float 0.5) as (_ & _ & Hout).
  repeat split; try assumption.
  - destruct Hmin as [[-> _] | [[-> | ->] _]];
      [apply float_ltb_nan_l | exact Hlow | reflexivity].
  - change (isNaN 0.5 || isNaN n) with (isNaN n) in Hmax.
    destruct Hmax as [[Hm Hn] | [Hm Hn]]; rewrite Hn.
    + rewrite Hm. reflexivity.
    + assert (isNaN (Math_max 0.5 n) = false) as Hm'
        by (destruct Hm as [-> | ->]; [reflexivity | exact Hn]).
      destruct Hmin as [[_ Hx] | [[-> | ->] _]];
        [| exact Hm' | reflexivity].
      rewrite Hm' in Hx. discriminate.
Qed.





(** ** The page: selection state and distance shown *)

Lemma getShortestPath_returns (start end_ : Room) (allRooms : list Room) :
  exists p, getShortestPath start end_ allRooms = Ok p.
Proof. exact (getShortestPathFuel_total start end_ allRooms _ (le_n _)). Qed.

Lemma handleStartSelect_consistent (allRooms : list Room) (st : Index.State) (r : Room) :
  exists st', Index.handleStartSelect allRooms st r = Ok st' /\ consistent allRooms st'.
Proof.
  unfold Index.handleStartSelect, Index.run, Index.startSelectUpdates.
  destruct (Index.selectedDestination st) as [d |] eqn:Hd.
  - destruct (getShortestPath_returns r d allRooms) as [p Hp]. rewrite Hp. simpl.
    eexists. split; [reflexivity |].
    intros s' d' Hs' Hd'. simpl in *. rewrite Hd in Hd'. congruence.
  - simpl. eexists. split; [reflexivity |].
    intros s' d' Hs' Hd'. simpl in *. congruence.
Qed.

Lemma handleDestinationSelect_consistent (allRooms : list Room) (st : Index.State)
    (r : Room) :
  exists st', Index.handleDestinationSelect allRooms st r = Ok st'
              /\ consistent allRooms st'.
Proof.
  unfold Index.handleDestinationSelect, Index.run, Index.destinationSelectUpdates.
  destruct (Index.selectedStart st) as [s |] eqn:Hs.
  - destruct (getShortestPath_returns s r allRooms) as [p Hp]. rewrite Hp. simpl.
    eexists. split; [reflexivity |].
    intros s' d' Hs' Hd'. simpl in *. rewrite Hs in Hs'. congruence.
  - simpl. eexists. split; [reflexivity |].
    intros s' d' Hs' Hd'. simpl in *. congruence.
Qed.

(** Every handler of the page returns, and leaves a state in which the
    path shown is the route between the two selected ends whenever both
    are selected.  Nothing is assumed of the state before. *)
Theorem handlers_keep_consistent (allRooms : list Room) (st : Index.State) (r : Room) :
  consistent allRooms Index.initialState
  /\ consistent allRooms (Index.clearNavigation st)
  /\ (exists st', Index.handleStartSelect allRooms st r = Ok st' /\ consistent allRooms st')
  /\ (exists st', Index.handleDestinationSelect allRooms st r = Ok st'
                  /\ consistent allRooms st')
  /\ (exists st', Index.handleRoomClick allRooms st r = Ok st' /\ consistent allRooms st').
Proof.
  split; [intros s d Hs; discriminate |].
  split; [intros s d Hs; discriminate |].
  split; [apply handleStartSelect_consistent |].
  split; [apply handleDestinationSelect_consistent |].
  unfold Index.handleRoomClick, Index.roomClickUpdates.
  destruct (Index.selectedStart st) as [s |] eqn:Hs;
    [destruct (Index.selectedDestination st) as [d |] eqn:Hd |].
  - unfold Index.run, Index.startSelectUpdates. rewrite Hd.
    destruct (getShortestPath_returns r d allRooms) as [p Hp]. rewrite Hp. simpl.
    eexists. split; [reflexivity |]. intros s' d' _ Hd'. discriminate.
  - apply handleDestinationSelect_consistent.
  - apply handleStartSelect_consistent.
Qed.

(** A click on a room when both ends are selected makes the room the new
    start and clears the destination, but the path shown afterwards is
    not empty: it is the route from the clicked room to the destination
    that was selected before the click. *)
Theorem third_click_keeps_a_path (allRooms : list Room) (st : Index.State)
    (r s d : Room) :
  Index.selectedStart st = Some s ->
  Index.selectedDestination st = Some d ->
  exists p,
    Index.handleRoomClick allRooms st r
      = Ok {| Index.selectedStart := Some r; Index.selectedDestination := None;
              Index.path := p |}
    /\ getShortestPath r d allRooms = Ok p
    /\ p <> [].
Proof.
  intros Hs Hd.
  destruct (getShortestPath_returns r d allRooms) as [p Hp]. exists p.
  split; [| split; [exact Hp |]].
  - unfold Index.handleRoomClick, Index.roomClickUpdates, Index.run,
      Index.startSelectUpdates.
    rewrite Hs, Hd, Hp. reflexivity.
  - apply getShortestPath_cases in Hp as [Hp | Hp].
    + destruct (createGridBasedPath_total r d allRooms) as (l & _ & Hgrid & _).
      rewrite Hgrid in Hp. injection Hp as <-. discriminate.
    + apply graphSearch_Some in Hp as ([first [Hhead _]] & _). now destruct p.
Qed.

Lemma third_click_keeps_a_path_witness :
  exists p,
    Index.handleRoomClick [Corridor.west; Corridor.east; Corridor.far]
      {| Index.selectedStart := Some Corridor.west;
         Index.selectedDestination := Some Corridor.east;
         Index.path := [Corridor.west; Corridor.east] |}
      Corridor.far
      = Ok {| Index.selectedStart := Some Corridor.far; Index.selectedDestination := None;
              Index.path := p |}
    /\ getShortestPath Corridor.far Corridor.east
         [Corridor.west; Corridor.east; Corridor.far] = Ok p
    /\ p <> [].
Proof.
  apply (third_click_keeps_a_path [Corridor.west; Corridor.east; Corridor.far]
           {| Index.selectedStart := Some Corridor.west;
              Index.selectedDestination := Some Corridor.east;
              Index.path := [Corridor.west; Corridor.east] |}
           Corridor.far Corridor.west Corridor.east); reflexivity.
Defined.

(** The distance shown under the map is the rounded sum, taken from the
    first segment on and starting at 0, of [calculateDistance] over the
    consecutive pairs of the path; it is 0 for a path of fewer than two
    nodes. *)
Theorem calculateTotalDistance_sums (route : list Room) :
  Index.calculateTotalDistance route
  = Math_round (fold_left (fun total '(a, b) => (total + calculateDistance a b)%float)
                          (segments route) 0%float).
Proof.
  unfold Index.calculateTotalDistance.
  destruct route as [| a [| b rest]]; [reflexivity | reflexivity |].
  change (length (a :: b :: rest) <? 2)%nat with false. cbv iota. f_equal.
  generalize (segments (a :: b :: rest)) 0%float. clear.
  intros l. induction l as [| [p q] l IH]; intros acc; [reflexivity |].
  simpl. rewrite <- IH. f_equal. unfold calculateDistance.
  now rewrite (float_square_sub_swap (x q) (x p)), (float_square_sub_swap (y q) (y p)).
Qed.

Lemma binary_round_notNegative (m : positive) (e : Z) :
  notNegative (binary_round prec emax false m e) = true.
Proof.
  unfold binary_round. destruct (shl_align m e _) as [mz ez].
  pose proof (binary_round_aux_sign false (Z.pos mz) ez loc_Exact) as H.
  destruct (binary_round_aux prec emax false (Z.pos mz) ez loc_Exact);
    try (now subst); reflexivity.
Qed.

Lemma binary_normalize_notNegative (n e : Z) :
  (0 <= n)%Z -> notNegative (binary_normalize prec emax n e false) = true.
Proof.
  intros Hn. destruct n as [| m | m]; [reflexivity | | lia].
  apply binary_round_notNegative.
Qed.

(** Converting a value that is not negative to a float keeps it so. *)
Lemma SF2Prim_notNegative (f : spec_float) :
  notNegative f = true -> notNegative (Prim2SF (SF2Prim f)) = true.
Proof.
  destruct f as [s | s | | s m e];
    [now destruct s | destruct s; [discriminate | reflexivity] | reflexivity |].
  destruct s; [discriminate |]. intros _. unfold SF2Prim. cbv zeta.
  rewrite FloatLemmas.Z_ldexp_spec, of_uint63_spec.
  pose proof (binary_normalize_notNegative (Uint63Axioms.to_Z (Uint63Axioms.of_Z (Z.pos m))) 0)
    as H.
  specialize (H (proj1 (Uint63.to_Z_bounded _))).
  destruct (binary_normalize _ _ _ _ _) as [s' | s' | | s' m' e']; try exact H.
  simpl in H. apply negb_true_iff in H. subst s'. apply binary_round_notNegative.
Qed.

(** [Math.round] of a value that is not negative is not negative. *)
Lemma Math_round_notNegative (v : float) :
  notNegative (Prim2SF v) = true -> notNegative (Prim2SF (Math_round v)) = true.
Proof.
  unfold Math_round. intros H.
  destruct (Prim2SF v) as [s | s | | s m e] eqn:Hv; try (rewrite Hv; exact H).
  destruct (Z.leb_spec 0 e) as [He | He]; [rewrite Hv; exact H |].
  destruct s; [discriminate |]. cbv zeta.
  destruct (_ =? 0)%Z; [reflexivity |].
  apply SF2Prim_notNegative, binary_normalize_notNegative.
  apply Z.div_pos; [| apply Z.pow_pos_nonneg; lia].
  simpl cond_Zopp. pose proof (Z.pow_nonneg 2 (- e)). lia.
Qed.

(** The distance shown under the map is never below zero, whatever the
    coordinates of the path. *)
Theorem calculateTotalDistance_never_negative (route : list Room) :
  (Index.calculateTotalDistance route <? 0)%float = false.
Proof.
  rewrite ltb_spec. apply notNegative_not_below_zero.
  unfold Index.calculateTotalDistance.
  destruct (length route <? 2)%nat; [reflexivity |].
  apply Math_round_notNegative.
  assert (notNegative (Prim2SF 0%float) = true) as H0 by reflexivity.
  revert H0. generalize (segments route) 0%float.
  intros l. induction l as [| [p q] l IH]; intros acc Hacc; [exact Hacc |].
  simpl. apply IH. rewrite add_spec.
  apply SFadd_notNegative; [exact Hacc |]. rewrite sqrt_spec. apply SFsqrt_notNegative.
Qed.

(** ** Size of a route *)

(** A route is bounded in size.  A synthesized path has between one and
    four nodes: the start, at most two intermediate points and the
    destination.  The route of [getShortestPath], which the exported alias
    [findPathAStar] returns as well, has at least one node, and at most
    four or two more than the node list (a path found by the search,
    which repeats no id). *)
Theorem route_size (start end_ : Room) (allRooms : list Room) :
  exists grid p,
    createGridBasedPath start end_ allRooms = Ok grid
    /\ 1 <= length grid <= 4
    /\ findPathAStar start end_ allRooms = Ok p
    /\ getShortestPath start end_ allRooms = Ok p
    /\ 1 <= length p <= Nat.max 4 (length allRooms + 2).
Proof.
  destruct (createGridBasedPath_length start end_ allRooms) as (grid & Hgrid & Hlen).
  destruct (getShortestPath_returns start end_ allRooms) as [p Hp].
  exists grid, p. repeat split; try assumption; try lia.
  - apply getShortestPath_cases in Hp as [Hp | Hp].
    + rewrite Hgrid in Hp. injection Hp as <-. lia.
    + apply graphSearch_Some in Hp as ([first [Hhead _]] & _).
      destruct p; [discriminate | simpl; lia].
  - apply getShortestPath_cases in Hp as [Hp | Hp].
    + rewrite Hgrid in Hp. injection Hp as <-. lia.
    + destruct (graphSearch_ascending _ _ _ _ _ Hp) as [V Hsorted].
      apply ascending_NoDup in Hsorted.
      apply graphSearch_Some in Hp as (_ & _ & Hin & _).
      pose proof (distinct_length _ _ Hsorted Hin).
      pose proof (workingRooms_length start end_ allRooms). lia.
Qed.
